(** * VChecker: the concurrent analysis engine of the video corruption cleaner

    A shallow embedding of [VChecker.py]: the per-file analysis
    [check_video_corruption], the harvesting loop [run_analysis], the bulk
    cleanup [cleanup_active_processes] and the report functions
    [save_report] / [load_report], together with the library behaviour
    they rely on ([str.strip], [str.split], text-mode line iteration,
    [pathlib] parsing and ordering, the stable [sorted]).

    Conventions.
    - A Python [str] is a [string]; a character is a code point below 256.
    - A [pathlib.Path] is represented by its text [str(path)]; [Path_of]
      is the constructor [Path(...)] of the POSIX flavour.
    - Everything a function observes from outside (the outcome of a copy,
      of [Popen], the successive results of [poll()], the moments at which
      the listener thread calls [STOP_EVENT.set()], the clock) is given by
      an explicit environment record, consumed in program order. *)

From Stdlib Require Import Ascii String QArith.
From stdpp Require Import base gmap sets list strings pretty sorting.


(** ** Characters and strings *)

Module Str.

Definition TAB : ascii := "009"%char.
Definition LF : ascii := "010"%char.
Definition CR : ascii := "013"%char.
Definition SLASH : ascii := "/"%char.

(** [str.isspace] on the code points below 256. *)
Definition isspace (c : ascii) : bool :=
  match N_of_ascii c with
  | 9 | 10 | 11 | 12 | 13 | 28 | 29 | 30 | 31 | 32 | 133 | 160 => true
  | _ => false
  end%N.

Definition is_empty (s : string) : bool :=
  match s with EmptyString => true | String _ _ => false end.

Fixpoint lstrip (s : string) : string :=
  match s with
  | EmptyString => EmptyString
  | String c s' => if isspace c then lstrip s' else s
  end.

Fixpoint rstrip (s : string) : string :=
  match s with
  | EmptyString => EmptyString
  | String c s' =>
      let r := rstrip s' in
      if is_empty r && isspace c then EmptyString else String c r
  end.

(** [s.strip()] *)
Definition strip (s : string) : string := rstrip (lstrip s).

(** [s.split(sep)] for a one-character separator: never the empty list. *)
Fixpoint split (sep : ascii) (s : string) : list string :=
  match s with
  | EmptyString => [EmptyString]
  | String c s' =>
      if Ascii.eqb c sep then EmptyString :: split sep s'
      else match split sep s' with
           | h :: t => String c h :: t
           | [] => [String c EmptyString]
           end
  end.

(** [sep.join(l)] *)
Fixpoint join (sep : string) (l : list string) : string :=
  match l with
  | [] => EmptyString
  | [x] => x
  | x :: l' => x +:+ sep +:+ join sep l'
  end.

(** [s.lstrip(c)] for a single character. *)
Fixpoint lstrip_char (c : ascii) (s : string) : string :=
  match s with
  | EmptyString => EmptyString
  | String d s' => if Ascii.eqb d c then lstrip_char c s' else s
  end.

(** Does character [c] occur in [s]? *)
Fixpoint contains (c : ascii) (s : string) : bool :=
  match s with
  | EmptyString => false
  | String d s' => Ascii.eqb d c || contains c s'
  end.

(** Reading a text file opened with the default [newline=None]: every
    [\r\n] and every lone [\r] is handed to the program as [\n]. *)
Fixpoint universal_newlines (s : string) : string :=
  match s with
  | EmptyString => EmptyString
  | String c s' =>
      if Ascii.eqb c CR then
        String LF
          match s' with
          | String d s'' =>
              if Ascii.eqb d LF then universal_newlines s''
              else universal_newlines s'
          | EmptyString => EmptyString
          end
      else String c (universal_newlines s')
  end.

(** The lines of an already translated text, each with its terminator
    (the last one may lack it): what [for line in f] yields. *)
Fixpoint lines (s : string) : list string :=
  match s with
  | EmptyString => []
  | String c s' =>
      if Ascii.eqb c LF then String LF EmptyString :: lines s'
      else match lines s' with
           | h :: t => String c h :: t
           | [] => [String c EmptyString]
           end
  end.

Definition readlines (content : string) : list string :=
  lines (universal_newlines content).

End Str.

(** ** Paths (pathlib, POSIX flavour) *)

Module PathLib.
Import Str.

Abbreviation Path := string (only parsing).

(** [splitroot]: one leading slash, or exactly two, is the root. *)
Definition splitroot (part : string) : string * string :=
  match part with
  | String c _ =>
      if Ascii.eqb c SLASH then
        let stripped := lstrip_char SLASH part in
        if (String.length part - String.length stripped =? 2)%nat
        then ("//", stripped) else ("/", stripped)
      else ("", part)
  | EmptyString => ("", part)
  end.

Definition is_component (x : string) : bool :=
  negb (is_empty x) && negb (String.eqb x ".").

(** The root and the components of a path text. *)
Definition parse (s : string) : string * list string :=
  let '(root, rel) := splitroot s in
  (root, filter (fun x => is_component x = true) (split SLASH rel)).

Definition format (p : string * list string) : string :=
  let s := fst p +:+ join "/" (snd p) in
  if is_empty s then "." else s.

(** [Path(s)] *)
Definition Path_of (s : string) : Path := format (parse s).

(** [Path(a) / b] *)
Definition joinpath (a b : string) : Path :=
  let '(ra, pa) := parse a in
  let '(rb, pb) := parse b in
  if is_empty rb then format (ra, pa ++ pb) else format (rb, pb).

(** [path.name]: the last component, or the empty string. *)
Definition name (p : Path) : string := List.last (snd (parse p)) "".

(** The list pathlib compares ([_cparts]): the root (when there is one)
    followed by the components.  Later versions of the library compare
    the text split at the separators; on absolute paths with a one-slash
    root the two orders are the same. *)
Definition cparts (p : Path) : list string :=
  let '(root, parts) := parse p in
  if is_empty root then parts else root :: parts.

(** [p <= q] on [Path] objects: lexicographic on [cparts], each component
    compared as a string, code point by code point. *)
Definition path_leb (p q : Path) : bool :=
  match list_compare String.compare (cparts p) (cparts q) with
  | Gt => false
  | _ => true
  end.

(** [s <= t] on the texts themselves. *)
Definition str_leb (s t : string) : bool := String.leb s t.

End PathLib.

(** ** [sorted(l, key=...)]: a stable sort *)

Section StableSort.
Context {A K : Type} (key : A -> K) (leb : K -> K -> bool).

(** [x] goes in front of the first element whose key is not smaller:
    elements with equal keys keep the order they had in the input. *)
Fixpoint insort (x : A) (l : list A) : list A :=
  match l with
  | [] => [x]
  | y :: l' => if leb (key x) (key y) then x :: l else y :: insort x l'
  end.

Definition sorted (l : list A) : list A := foldr insort [] l.

Definition key_le (x y : A) : Prop := leb (key x) (key y) = true.
End StableSort.

(** ** The program state and the effects of the code *)

Module VChecker.
Import Str PathLib.

(** A process handle ([subprocess.Popen] object) is a [positive]. *)

Inductive Level := INFO | WARNING | ERROR.

(** What a call yields: a value, an exception (an [Exception] with its
    message [str(e)]), or nothing at all because it never returns. *)
Inductive Result (A : Type) : Type :=
  | Ok (a : A)
  | Raise (e : string)
  | Hang.
Arguments Ok {A} a.
Arguments Raise {A} e.
Arguments Hang {A}.

(** [(original_path, is_corrupted, reason)] *)
Definition Verdict : Type := string * bool * string.

Record World := mkWorld {
  STOP_EVENT : bool;                     (* threading.Event, never cleared *)
  ACTIVE_PROCESSES : gset positive;      (* the shared registry *)
  files : gmap string string;            (* regular files: path to content *)
  spawned : list (positive * list string); (* every Popen so far, with its command *)
  terminated : list positive;            (* every terminate() delivered so far *)
  futures : list (nat * Result Verdict); (* completed futures, in completion order *)
  log : list (Level * string);           (* records emitted through [logging] *)
  progress : nat                         (* the progress counter *)
}.

Definition set_STOP_EVENT (b : bool) (w : World) : World :=
  mkWorld b (ACTIVE_PROCESSES w) (files w) (spawned w) (terminated w)
          (futures w) (log w) (progress w).
Definition set_ACTIVE_PROCESSES (s : gset positive) (w : World) : World :=
  mkWorld (STOP_EVENT w) s (files w) (spawned w) (terminated w)
          (futures w) (log w) (progress w).
Definition set_files (f : gmap string string) (w : World) : World :=
  mkWorld (STOP_EVENT w) (ACTIVE_PROCESSES w) f (spawned w) (terminated w)
          (futures w) (log w) (progress w).
Definition set_spawned (l : list (positive * list string)) (w : World) : World :=
  mkWorld (STOP_EVENT w) (ACTIVE_PROCESSES w) (files w) l (terminated w)
          (futures w) (log w) (progress w).
Definition set_terminated (l : list positive) (w : World) : World :=
  mkWorld (STOP_EVENT w) (ACTIVE_PROCESSES w) (files w) (spawned w) l
          (futures w) (log w) (progress w).
Definition set_futures (l : list (nat * Result Verdict)) (w : World) : World :=
  mkWorld (STOP_EVENT w) (ACTIVE_PROCESSES w) (files w) (spawned w)
          (terminated w) l (log w) (progress w).
Definition set_log (l : list (Level * string)) (w : World) : World :=
  mkWorld (STOP_EVENT w) (ACTIVE_PROCESSES w) (files w) (spawned w)
          (terminated w) (futures w) l (progress w).
Definition set_progress (n : nat) (w : World) : World :=
  mkWorld (STOP_EVENT w) (ACTIVE_PROCESSES w) (files w) (spawned w)
          (terminated w) (futures w) (log w) n.

(** Computations: state passing, with exceptions and divergence. *)
Definition M (A : Type) : Type := World -> Result A * World.

Definition ret {A} (a : A) : M A := fun w => (Ok a, w).
Definition raise {A} (e : string) : M A := fun w => (Raise e, w).
Definition hang {A} : M A := fun w => (Hang, w).

Definition bind {A B} (m : M A) (k : A -> M B) : M B :=
  fun w =>
    match m w with
    | (Ok a, w1) => k a w1
    | (Raise e, w1) => (Raise e, w1)
    | (Hang, w1) => (Hang, w1)
    end.

Notation "'let!' x ':=' m 'in' k" := (bind m (fun x => k))
  (at level 10, x name, m at level 100, k at level 200).
Notation "m >> k" := (bind m (fun _ => k))
  (at level 100, k at level 200, right associativity).

(** [try: body  except Exception as e: handler e] *)
Definition try_except {A} (body : M A) (handler : string -> M A) : M A :=
  fun w =>
    match body w with
    | (Raise e, w1) => handler e w1
    | r => r
    end.

(** [try: body  finally: fin].  The [finally] clause runs whenever the
    body is left, by a return or by an exception; an exception raised by
    the clause itself replaces whatever the body produced. *)
Definition try_finally {A} (body : M A) (fin : M unit) : M A :=
  fun w =>
    match body w with
    | (Hang, w1) => (Hang, w1)
    | (r, w1) =>
        match fin w1 with
        | (Ok _, w2) => (r, w2)
        | (Raise e, w2) => (Raise e, w2)
        | (Hang, w2) => (Hang, w2)
        end
    end.

(** An environment fault: [Some e] makes the call raise [e]. *)
Definition fault (f : option string) : M unit :=
  match f with Some e => raise e | None => ret tt end.

(** The listener thread: [STOP_EVENT.set()] if the quit key was pressed. *)
Definition listener (quit_pressed : bool) : M unit :=
  fun w => (Ok tt, set_STOP_EVENT (STOP_EVENT w || quit_pressed) w).

Definition is_set : M bool := fun w => (Ok (STOP_EVENT w), w).

Definition logging (lvl : Level) (msg : string) : M unit :=
  fun w => (Ok tt, set_log (log w ++ [(lvl, msg)]) w).

Definition path_exists (p : string) : M bool :=
  fun w => (Ok (bool_decide (is_Some (files w !! p))), w).

(** [shutil.copy2(src, dst)] *)
Definition copy2 (io_fault : option string) (src dst : string) : M unit :=
  fun w =>
    match files w !! src with
    | None => (Raise ("[Errno 2] No such file or directory: '" +:+ src +:+ "'"), w)
    | Some content =>
        match io_fault with
        | Some e => (Raise e, w)
        | None => (Ok tt, set_files (<[dst := content]> (files w)) w)
        end
    end.

(** [path.unlink()] on a path that exists. *)
Definition unlink (io_fault : option string) (p : string) : M unit :=
  fault io_fault >> fun w => (Ok tt, set_files (delete p (files w)) w).

(** [subprocess.Popen(command, ...)] *)
Definition Popen (outcome : positive + string) (command : list string) : M positive :=
  match outcome with
  | inl p => fun w => (Ok p, set_spawned (spawned w ++ [(p, command)]) w)
  | inr e => raise e
  end.

(** [with PROCESS_LOCK: ACTIVE_PROCESSES.add(process)] *)
Definition registry_add (p : positive) : M unit :=
  fun w => (Ok tt, set_ACTIVE_PROCESSES ({[p]} ∪ ACTIVE_PROCESSES w) w).

(** [with PROCESS_LOCK: if process in ACTIVE_PROCESSES: ACTIVE_PROCESSES.remove(process)] *)
Definition registry_discard (p : positive) : M unit :=
  fun w =>
    (Ok tt,
     if bool_decide (p ∈ ACTIVE_PROCESSES w)
     then set_ACTIVE_PROCESSES (ACTIVE_PROCESSES w ∖ {[p]}) w else w).

(** [process.terminate(); process.wait(timeout=5)] *)
Definition terminate_wait (terminate_fault wait_fault : option string)
    (p : positive) : M unit :=
  fault terminate_fault >>
  (fun w => (Ok tt, set_terminated (terminated w ++ [p]) w)) >>
  fault wait_fault.

(** *** The per-file analysis *)

(** One iteration of the polling loop in which [process.poll()] is still
    [None]: whether the quit key was pressed since the previous check, and
    what [time.time()] reads. *)
Record Tick := mkTick { quit_pressed : bool; now : Q }.

(** Everything one call of [check_video_corruption] observes. *)
Record TaskEnv := mkTaskEnv {
  urandom_hex : string;            (* os.urandom(8).hex() *)
  copy2_fault : option string;     (* an I/O error while copying *)
  Popen_outcome : positive + string; (* the new handle, or the exception *)
  start_time : Q;                  (* time.time() right after the spawn *)
  ticks : list Tick;               (* the iterations with poll() None *)
  returncode : option Z;           (* what poll() reports afterwards;
                                      None: the process never exits *)
  terminate_fault : option string; (* process.terminate() raises *)
  wait_fault : option string;      (* process.wait(timeout=5) raises *)
  quit_before_except : bool;       (* quit key pressed before the handler *)
  unlink_fault : option string     (* local_copy.unlink() raises *)
}.

Definition Qgtb (a b : Q) : bool := negb (Qle_bool a b).

(** [ANALYSIS_TIMEOUT is not None and
     (time.time() - start_time > ANALYSIS_TIMEOUT)]: the timeout that has
    elapsed, if one is configured and has. *)
Definition timed_out (ANALYSIS_TIMEOUT : option Z) (start_time now : Q)
    : option Z :=
  match ANALYSIS_TIMEOUT with
  | Some T => if Qgtb (now - start_time)%Q (inject_Z T) then Some T else None
  | None => None
  end.

Definition command_for (path_to_analyze : string) : list string :=
  ["ffmpeg"; "-nostdin"; "-v"; "error"; "-i"; path_to_analyze; "-f"; "null"; "-"].

Definition timeout_reason (T : Z) : string := "Timeout (" +:+ pretty T +:+ "s)".

Section Worker.
Variable ANALYSIS_TIMEOUT : option Z.
Variable env : TaskEnv.

(** [while process.poll() is None: ...].  [inl v]: the loop body
    returned [v]; [inr rc]: the loop ended because [poll()] reported the
    exit status [rc], now stored in [process.returncode]. *)
Fixpoint poll_loop (original_path : string) (process : positive)
    (ts : list Tick) : M (Verdict + Z) :=
  match ts with
  | [] =>
      match returncode env with
      | Some rc => ret (inr rc)
      | None => hang
      end
  | t :: ts' =>
      listener (quit_pressed t) >>
      let! stop := is_set in
      if stop then
        terminate_wait (terminate_fault env) (wait_fault env) process >>
        ret (inl (original_path, false, "Cancelled"))
      else
        match timed_out ANALYSIS_TIMEOUT (start_time env) (now t) with
        | Some T =>
            terminate_wait (terminate_fault env) (wait_fault env) process >>
            ret (inl (original_path, true, timeout_reason T))
        | None => (* time.sleep(0.1) *)
            poll_loop original_path process ts'
        end
  end.

(** The body of the [try] statement. *)
Definition analyse (original_path path_to_analyze : string) : M Verdict :=
  let! process := Popen (Popen_outcome env) (command_for path_to_analyze) in
  registry_add process >>
  let! returned := poll_loop original_path process (ticks env) in
  match returned with
  | inl v => ret v
  | inr rc =>
      if (rc =? 0)%Z
      then ret (original_path, false, "Healthy")
      else ret (original_path, true, "Corruption detected")
  end.

(** The [except Exception as e] clause. *)
Definition on_exception (original_path : string) (e : string) : M Verdict :=
  listener (quit_before_except env) >>
  let! stop := is_set in
  if stop then ret (original_path, false, "Cancelled")
  else ret (original_path, true, "Unexpected error: " +:+ e).

(** The [finally] clause. *)
Definition release (process : option positive) (local_copy : option string)
    : M unit :=
  match process with
  | Some p => registry_discard p
  | None => ret tt
  end >>
  match local_copy with
  | Some lc =>
      let! present := path_exists lc in
      if present then unlink (unlink_fault env) lc else ret tt
  | None => ret tt
  end.

(** The value of the local variable [process] when the [finally] clause
    runs: the handle if [Popen] returned one, otherwise still [None]. *)
Definition process_var : option positive :=
  match Popen_outcome env with inl p => Some p | inr _ => None end.

Definition check_video_corruption (original_path : string)
    (use_cache : bool) (temp_dir : string) : M Verdict :=
  if use_cache then
    let local_copy :=
      joinpath temp_dir (urandom_hex env +:+ "-" +:+ name original_path) in
    fun w =>
      match copy2 (copy2_fault env) original_path local_copy w with
      | (Raise e, w1) =>
          (Ok (original_path, true, "Local copy error: " +:+ e), w1)
      | (Hang, w1) => (Hang, w1)
      | (Ok _, w1) =>
          try_finally
            (try_except (analyse original_path local_copy)
                        (on_exception original_path))
            (release process_var (Some local_copy)) w1
      end
  else
    try_finally
      (try_except (analyse original_path original_path)
                  (on_exception original_path))
      (release process_var None).
End Worker.

(** What happens first while the worker polls: the verifier exits on its
    own, the configured timeout elapses, or the stop flag is observed.
    This follows the case distinction of the specification; [stop] is the
    value of the flag when polling starts. *)
Inductive Event :=
  | Exited (rc : Z)
  | TimedOut (T : Z)
  | StopSeen
  | NeverExits.

Fixpoint first_event (ANALYSIS_TIMEOUT : option Z) (env : TaskEnv)
    (stop : bool) (ts : list Tick) : Event :=
  match ts with
  | [] =>
      match returncode env with
      | Some rc => Exited rc
      | None => NeverExits
      end
  | t :: ts' =>
      if stop || quit_pressed t then StopSeen
      else match timed_out ANALYSIS_TIMEOUT (start_time env) (now t) with
           | Some T => TimedOut T
           | None => first_event ANALYSIS_TIMEOUT env false ts'
           end
  end.

(** The polling of a call comes to an end: left to itself (the stop flag
    unset when polling starts) the verifier exits, or the timeout elapses,
    or the quit key is pressed. *)
Definition settles (ANALYSIS_TIMEOUT : option Z) (env : TaskEnv) : bool :=
  match first_event ANALYSIS_TIMEOUT env false (ticks env) with
  | NeverExits => false
  | _ => true
  end.

(** The staging step of a call succeeds: no staging is requested, or the
    source exists and the copy meets no I/O error. *)
Definition staging_succeeds (use_cache : bool) (env : TaskEnv)
    (original_path : string) (w : World) : Prop :=
  use_cache = false \/
  (is_Some (files w !! original_path) /\ copy2_fault env = None).

(** The deletion of the staged copy, if any, meets no error. *)
Definition deletion_succeeds (use_cache : bool) (env : TaskEnv) : Prop :=
  use_cache = false \/ unlink_fault env = None.

(** *** Vocabulary of the statements about one call *)

(** The six forms a verdict can take. *)
Definition verdict_shape (p : string) (v : Verdict) : Prop :=
  v = (p, false, "Healthy") \/
  v = (p, true, "Corruption detected") \/
  (exists T, v = (p, true, timeout_reason T)) \/
  v = (p, false, "Cancelled") \/
  (exists e, v = (p, true, "Local copy error: " +:+ e)) \/
  (exists e, v = (p, true, "Unexpected error: " +:+ e)).

(** The name under which [original_path] is staged. *)
Definition staged_name (env : TaskEnv) (original_path temp_dir : string) : string :=
  joinpath temp_dir (urandom_hex env +:+ "-" +:+ name original_path).

(** What a call computes, by what its environment does: the outcome of
    the [try] statement, when nothing goes wrong before or after it. *)
Definition handled (env : TaskEnv) (p : string) (stop : bool) (e : string)
    : Result Verdict :=
  if stop || quit_before_except env then Ok (p, false, "Cancelled")
  else Ok (p, true, "Unexpected error: " +:+ e).

Definition after_terminate (env : TaskEnv) (p : string) (stop : bool)
    (v : Verdict) : Result Verdict :=
  match terminate_fault env, wait_fault env with
  | Some e, _ => handled env p stop e
  | None, Some e => handled env p stop e
  | None, None => Ok v
  end.

Definition outcome_of (T : option Z) (env : TaskEnv) (p : string)
    (stop : bool) : Result Verdict :=
  match Popen_outcome env with
  | inr e => handled env p stop e
  | inl _ =>
      match first_event T env stop (ticks env) with
      | Exited rc =>
          Ok (if (rc =? 0)%Z then (p, false, "Healthy")
              else (p, true, "Corruption detected"))
      | TimedOut T' => after_terminate env p stop (p, true, timeout_reason T')
      | StopSeen => after_terminate env p true (p, false, "Cancelled")
      | NeverExits => Hang
      end
  end.

(** *** Bulk cleanup of the registered processes *)

Record CleanupEnv := mkCleanupEnv {
  c_terminate_fault : positive -> option string;
  c_wait_fault : positive -> option string
}.

(** [for p in active_procs: try: p.terminate(); p.wait(timeout=5)
                            except Exception: pass] *)
Fixpoint terminate_each (cenv : CleanupEnv) (active_procs : list positive)
    : M unit :=
  match active_procs with
  | [] => ret tt
  | p :: rest =>
      try_except
        (terminate_wait (c_terminate_fault cenv p) (c_wait_fault cenv p) p)
        (fun _ => ret tt) >>
      terminate_each cenv rest
  end.

Definition cleanup_active_processes (cenv : CleanupEnv) : M unit :=
  fun w =>
    let active_procs := elements (ACTIVE_PROCESSES w) in
    match active_procs with
    | [] => (Ok tt, w)
    | _ =>
        (terminate_each cenv active_procs >>
         fun w1 => (Ok tt, set_ACTIVE_PROCESSES ∅ w1)) w
    end.

(** *** The worker pool *)

(** What [run_analysis] observes: the name of the temporary directory,
    the environment of each submitted call (by its index in
    [video_files]), the order in which the futures complete, and the
    moments of the quit key relative to the checks of the main thread.
    Each call is run as a whole at the moment its future completes.
    The display ([Live], [Progress] apart from its counter) and the
    removal of the temporary directory at the end are left out. *)
Record PoolEnv := mkPoolEnv {
  temp_dir : string;
  task_env : nat -> TaskEnv;
  completion : list nat;
  quit_before_check : nat -> bool;
  quit_before_final : bool;
  cleanup_env : CleanupEnv
}.

Section Pool.
Variable ANALYSIS_TIMEOUT : option Z.
Variable penv : PoolEnv.
Variable video_files : list string.
Variable use_cache : bool.

(** The call submitted for [file] (index [j]) runs to its end and the
    future stores what it produced: its value or its exception. *)
Definition complete_future (j : nat) (file : string) : M (Result Verdict) :=
  fun w =>
    match check_video_corruption ANALYSIS_TIMEOUT (task_env penv j)
            file use_cache (temp_dir penv) w with
    | (Hang, w1) => (Hang, w1)
    | (r, w1) => (Ok r, set_futures (futures w1 ++ [(j, r)]) w1)
    end.

(** [future.result()] *)
Definition future_result (r : Result Verdict) : M Verdict :=
  match r with
  | Ok v => ret v
  | Raise e => raise e
  | Hang => hang
  end.

Definition progress_update : M unit :=
  fun w => (Ok tt, set_progress (S (progress w)) w).

(** [for future in as_completed(future_to_file): ...]; [i] counts the
    checks of the stop flag made so far. *)
Fixpoint harvest (order : list nat) (i : nat)
    (corrupted_files : list (string * string)) : M (list (string * string)) :=
  match order with
  | [] => ret corrupted_files
  | j :: rest =>
      match video_files !! j with
      | None => harvest rest i corrupted_files
      | Some file =>
          let! r := complete_future j file in
          listener (quit_before_check penv i) >>
          let! stop := is_set in
          if stop then ret corrupted_files (* break *)
          else
            let! corrupted_files' :=
              try_except
                (let! v := future_result r in
                 let '(path, is_corrupted, reason) := v in
                 ret (if is_corrupted
                      then corrupted_files ++ [(path, reason)]
                      else corrupted_files))
                (fun e =>
                   logging ERROR ("An analysis task failed: " +:+ e) >>
                   ret corrupted_files) in
            progress_update >>
            harvest rest (S i) corrupted_files'
      end
  end.

(** Future [j] holds what the call for the [j]-th file produced. *)
Definition produced_by_call (f : nat * Result Verdict) : Prop :=
  exists file wa wb,
    video_files !! f.1 = Some file /\
    check_video_corruption ANALYSIS_TIMEOUT (task_env penv f.1) file
      use_cache (temp_dir penv) wa = (f.2, wb).

Definition run_analysis (workers : Z) : M (list (string * string)) :=
  (* ThreadPoolExecutor(max_workers=workers) *)
  if (workers <=? 0)%Z then raise "max_workers must be greater than 0"
  else
    let! corrupted_files := harvest (completion penv) 0 [] in
    listener (quit_before_final penv) >>
    let! stop := is_set in
    if stop then
      cleanup_active_processes (cleanup_env penv) >>
      (* executor.shutdown(wait=False, cancel_futures=True) *)
      ret []
    else ret (sorted fst path_leb corrupted_files).
End Pool.

(** *** Reports *)

Definition report_line (entry : string * string) : string :=
  fst entry +:+ String TAB (snd entry +:+ String LF EmptyString).

Definition report_text (corrupted_files : list (string * string)) : string :=
  foldr (fun entry rest => report_line entry +:+ rest) EmptyString corrupted_files.

(** [io_fault]: an [IOError] raised by [open] or by a [write]. *)
Definition save_report (io_fault : option string) (report_file : string)
    (corrupted_files : list (string * string)) : M unit :=
  try_except
    (fault io_fault >>
     (fun w => (Ok tt, set_files (<[report_file := report_text corrupted_files]>
                                    (files w)) w)) >>
     logging INFO ("Report saved to [bold cyan]" +:+ report_file +:+ "[/bold cyan]"))
    (fun e => logging ERROR ("Could not save report: " +:+ e)).

(** [for line in f: ...] *)
Fixpoint load_lines (ls : list string) (corrupted_files : list (string * string))
    : M (list (string * string)) :=
  match ls with
  | [] => ret corrupted_files
  | line :: ls' =>
      match split TAB (strip line) with
      | [p0; p1] =>
          let path := Path_of p0 in
          let reason := p1 in
          let! present := path_exists path in
          if present then load_lines ls' (corrupted_files ++ [(path, reason)])
          else
            logging WARNING
              ("File listed in report not found, skipping: " +:+ path) >>
            load_lines ls' corrupted_files
      | _ => load_lines ls' corrupted_files
      end
  end.

Definition load_report (io_fault : option string) (report_file : string)
    : M (list (string * string)) :=
  fun w =>
    match files w !! report_file with
    | None =>
        (logging ERROR ("Report file '" +:+ report_file +:+ "' not found.") >>
         ret []) w
    | Some content =>
        try_except
          (fault io_fault >>
           let! corrupted_files := load_lines (readlines content) [] in
           logging INFO ("Report loaded from [bold cyan]" +:+ report_file
                         +:+ "[/bold cyan]") >>
           ret corrupted_files)
          (fun e => logging ERROR ("Could not load report: " +:+ e) >> ret []) w
    end.

(** *** Vocabulary of the statements about reports *)

(** What one line of a report contributes: a pair, when the stripped line
    splits into exactly two tab-separated fields. *)
Definition parse_line (line : string) : option (string * string) :=
  match split TAB (strip line) with
  | [p0; p1] => Some (Path_of p0, p1)
  | _ => None
  end.

Definition present (fs : gmap string string) (entry : string * string) : Prop :=
  is_Some (fs !! entry.1).

Definition missing_warning (entry : string * string) : Level * string :=
  (WARNING, "File listed in report not found, skipping: " +:+ entry.1).

Definition loaded_info (report_file : string) : Level * string :=
  (INFO, "Report loaded from [bold cyan]" +:+ report_file +:+ "[/bold cyan]").





(** *** The aggregation step, as the specification words it *)

(** The loop body keeps [(path, reason)] of a verdict when
    [is_corrupted] holds. *)
Definition corrupted_record (v : Verdict) : option (string * string) :=
  let '(path, is_corrupted, reason) := v in
  if is_corrupted then Some (path, reason) else None.

Definition collect (vs : list Verdict) : list (string * string) :=
  omap corrupted_record vs.

(** [finalize(verdicts)]: filter to the corrupted ones, sort by path. *)
Definition finalize (vs : list Verdict) : list (string * string) :=
  sorted fst path_leb (collect vs).

(** The verdicts, and the error records, of a list of completed futures. *)
Definition future_verdict (f : nat * Result Verdict) : option Verdict :=
  match f.2 with Ok v => Some v | _ => None end.

Definition future_error (f : nat * Result Verdict) : option (Level * string) :=
  match f.2 with
  | Raise e => Some (ERROR, "An analysis task failed: " +:+ e)
  | _ => None
  end.

Definition oks (fs : list (nat * Result Verdict)) : list Verdict :=
  omap future_verdict fs.

Definition errors (fs : list (nat * Result Verdict)) : list (Level * string) :=
  omap future_error fs.

(** The futures that exist: the indices of [video_files]. *)
Definition submitted (video_files : list string) (order : list nat) : list nat :=
  filter (fun j => is_Some (video_files !! j)) order.

End VChecker.

(** ** Concrete scenarios *)

Module Scenario.
Import VChecker.

(** Two video files on disk, nothing running, the stop flag unset. *)
Definition w_videos : World :=
  mkWorld false ∅ (<["/v/a.mp4" := "A"]> (<["/v/b.mp4" := "B"]> ∅))
          [] [] [] [] 0.

(** As [w_videos], with one verifier process still registered. *)
Definition w_busy : World :=
  mkWorld false {[7%positive]} (<["/v/a.mp4" := "A"]> (<["/v/b.mp4" := "B"]> ∅))
          [(7%positive, command_for "/v/z.mp4")] [] [] [] 0.

Definition quiet_ticks : list Tick := [mkTick false 1; mkTick false 3].

(** The verifier is spawned as [proc] and exits with [rc]. *)
Definition env_exit (proc : positive) (rc : Z) : TaskEnv :=
  mkTaskEnv "00ff" None (inl proc) 0 quiet_ticks (Some rc) None None false None.

(** The same, but the staged copy cannot be deleted. *)
Definition env_unlink_fault (proc : positive) (rc : Z) : TaskEnv :=
  mkTaskEnv "00ff" None (inl proc) 0 quiet_ticks (Some rc) None None false
            (Some "[WinError 32] The process cannot access the file").

(** The process outlives the bounded wait that follows [terminate()]. *)
Definition env_wait_fault (proc : positive) : TaskEnv :=
  mkTaskEnv "00ff" None (inl proc) 0 quiet_ticks (Some 0%Z) None
            (Some "Command 'ffmpeg' timed out after 5 seconds") false None.

(** The verifier cannot be started. *)
Definition env_spawn_fault : TaskEnv :=
  mkTaskEnv "00ff" None (inr "[Errno 2] No such file or directory: 'ffmpeg'")
            0 [] None None None false None.

(** The quit key is pressed during the second polling iteration. *)
Definition env_cancel (proc : positive) : TaskEnv :=
  mkTaskEnv "00ff" None (inl proc) 0 [mkTick false 1; mkTick true 2]
            (Some 0%Z) None None false None.


(** The verifier never exits and nothing interrupts it. *)
Definition env_hang (proc : positive) : TaskEnv :=
  mkTaskEnv "00ff" None (inl proc) 0 [] None None None false None.

Definition no_faults : CleanupEnv := mkCleanupEnv (fun _ => None) (fun _ => None).

(** Two files, both found corrupted; the second future completes first.
    Nobody presses the quit key. *)
Definition penv_quiet : PoolEnv :=
  mkPoolEnv "/tmp/t" (fun j => env_exit (Pos.of_succ_nat j) 1) [1; 0]
            (fun _ => false) false no_faults.


(** The call for the first file cannot delete its staged copy. *)
Definition penv_raise : PoolEnv :=
  mkPoolEnv "/tmp/t"
            (fun j => match j with
                      | 0 => env_unlink_fault 1 1
                      | _ => env_exit (Pos.of_succ_nat j) 1
                      end)
            [1; 0] (fun _ => false) false no_faults.




(** The verifier of the only file never exits. *)
Definition penv_hang : PoolEnv :=
  mkPoolEnv "/tmp/t" (fun j => env_hang (Pos.of_succ_nat j)) [0]
            (fun _ => false) false no_faults.

End Scenario.

(** ** Leaving the temporary directory *)

Module TempDir.
Import Str PathLib VChecker.

(** The files a run can have put into its temporary directory: the
    staged copies of the files it was given.  The directory is created
    by the run, so that nothing else is in it. *)
Definition staged_names (penv : PoolEnv) (video_files : list string)
    (use_cache : bool) : list string :=
  if use_cache
  then imap (fun j file => staged_name (task_env penv j) file (temp_dir penv))
            video_files
  else [].

(** [shutil.rmtree] on these files: each one that is still there is
    deleted; the first deletion that fails raises. *)
Fixpoint remove_each (rmtree_fault : string -> option string)
    (paths : list string) : M unit :=
  match paths with
  | [] => ret tt
  | q :: rest =>
      let! present := path_exists q in
      if present
      then unlink (rmtree_fault q) q >> remove_each rmtree_fault rest
      else remove_each rmtree_fault rest
  end.

(** The exit of [with tempfile.TemporaryDirectory() as temp_dir]. *)
Definition leave_temp_dir (rmtree_fault : string -> option string)
    (penv : PoolEnv) (video_files : list string) (use_cache : bool) : M unit :=
  remove_each rmtree_fault (staged_names penv video_files use_cache).

(** [run_analysis] as its caller sees it: the function above, which
    stops where the [with] blocks are left, followed by the removal of
    the temporary directory; an exception of that removal replaces the
    result. *)
Definition run_analysis_with_exit (ANALYSIS_TIMEOUT : option Z)
    (penv : PoolEnv) (rmtree_fault : string -> option string)
    (video_files : list string) (use_cache : bool) (workers : Z)
    : M (list (string * string)) :=
  try_finally
    (run_analysis ANALYSIS_TIMEOUT penv video_files use_cache workers)
    (leave_temp_dir rmtree_fault penv video_files use_cache).

(** The temporary directory can be removed: no staged copy that is
    still there resists its deletion. *)
Definition removable (rmtree_fault : string -> option string)
    (paths : list string) (w : World) : Prop :=
  forall q, q ∈ paths -> is_Some (files w !! q) -> rmtree_fault q = None.

End TempDir.

(** ** More of the Python library *)

Module PyLib.
Import Str PathLib.

(** [c.lower()] on the code points below 256: the letters A to Z and the
    accented capitals (all of C0..DE but the multiplication sign). *)
Definition lower_char (c : ascii) : ascii :=
  let n := N_of_ascii c in
  if ((65 <=? n) && (n <=? 90) ||
      (192 <=? n) && (n <=? 222) && negb (n =? 215))%N
  then ascii_of_N (n + 32) else c.

(** [s.lower()] *)
Fixpoint lower (s : string) : string :=
  match s with
  | EmptyString => EmptyString
  | String c s' => String (lower_char c) (lower s')
  end.

(** [s.replace(c, "")] for a one-character [c]. *)
Fixpoint remove_char (c : ascii) (s : string) : string :=
  match s with
  | EmptyString => EmptyString
  | String d s' =>
      if Ascii.eqb d c then remove_char c s' else String d (remove_char c s')
  end.

(** [needle in hay] on strings. *)
Fixpoint is_substring (needle hay : string) : bool :=
  String.prefix needle hay ||
  match hay with
  | EmptyString => false
  | String _ hay' => is_substring needle hay'
  end.

(** The white space that [int()] accepts around a number. *)
Definition int_space (c : ascii) : bool :=
  match N_of_ascii c with
  | 9 | 10 | 11 | 12 | 13 | 32 | 133 | 160 => true
  | _ => false
  end%N.

Fixpoint lstrip_int (s : string) : string :=
  match s with
  | EmptyString => EmptyString
  | String c s' => if int_space c then lstrip_int s' else s
  end.

Fixpoint rstrip_int (s : string) : string :=
  match s with
  | EmptyString => EmptyString
  | String c s' =>
      let r := rstrip_int s' in
      if is_empty r && int_space c then EmptyString else String c r
  end.

Definition digit_value (c : ascii) : option Z :=
  let n := N_of_ascii c in
  if ((48 <=? n) && (n <=? 57))%N then Some (Z.of_N n - 48)%Z else None.

(** Decimal digits, single underscores allowed between two digits.
    [acc] is the value and [count] the number of digits read so far;
    [after_digit] tells whether the previous character was a digit. *)
Fixpoint parse_digits (s : string) (acc : Z) (count : nat)
    (after_digit : bool) : option (Z * nat) :=
  match s with
  | EmptyString => if after_digit then Some (acc, count) else None
  | String c s' =>
      match digit_value c with
      | Some d => parse_digits s' (10 * acc + d)%Z (S count) true
      | None =>
          if Ascii.eqb c "_" && after_digit
          then parse_digits s' acc count false
          else None
      end
  end.

(** [sys.int_info.default_max_str_digits] *)
Definition max_str_digits : nat := 4300.

(** [int(s)]: [None] stands for [ValueError]. *)
Definition int_of_string (s : string) : option Z :=
  let s1 := rstrip_int (lstrip_int s) in
  let '(sign, body) :=
    match s1 with
    | String "+" b => (1%Z, b)
    | String "-" b => ((-1)%Z, b)
    | _ => (1%Z, s1)
    end in
  match parse_digits body 0 0 false with
  | Some (v, n) => if (n <=? max_str_digits)%nat then Some (sign * v)%Z else None
  | None => None
  end.

(** [range(start, stop)] *)
Definition range (start stop : Z) : list Z :=
  (fun k => (start + Z.of_nat k)%Z) <$> seq 0 (Z.to_nat (stop - start)).

(** [name.rfind('.')]: the index of the last dot. *)
Fixpoint rfind_dot (s : string) : option nat :=
  match s with
  | EmptyString => None
  | String c s' =>
      match rfind_dot s' with
      | Some i => Some (S i)
      | None => if Ascii.eqb c "." then Some 0 else None
      end
  end.

Fixpoint drop_chars (n : nat) (s : string) : string :=
  match n, s with
  | S n', String _ s' => drop_chars n' s'
  | _, _ => s
  end.

(** [path.suffix]: from the last dot of the name on, unless that dot is
    the first or the last character of the name. *)
Definition suffix (p : string) : string :=
  let nm := name p in
  match rfind_dot nm with
  | Some i =>
      if (0 <? i)%nat && (i <? String.length nm - 1)%nat
      then drop_chars i nm else EmptyString
  | None => EmptyString
  end.

End PyLib.

(** ** The interactive parts of the program *)

Module Interactive.
Import Str PathLib VChecker TempDir PyLib.

(** *** The quit key listener *)

Definition is_quit_key (char : string) : bool :=
  bool_decide (char ∈ ["q"; "a"; String "003" EmptyString]).

(** [while not STOP_EVENT.is_set(): ...].  [keys] is what the successive
    calls of [getch()] yield: a string, an exception, or nothing when no
    key ever comes. *)
Fixpoint listen (keys : list (Result string)) : M unit :=
  let! stop := is_set in
  if stop then ret tt
  else
    match keys with
    | [] => hang
    | Hang :: _ => hang
    | Raise _ :: _ => ret tt (* except Exception: break *)
    | Ok char :: rest =>
        if is_quit_key char then
          let! stop := is_set in
          if negb stop then fun w => (Ok tt, set_STOP_EVENT true w)
          else ret tt
          (* break *)
        else listen rest
    end.

Definition input_listener (INPUT_LISTENER_ENABLED : bool)
    (keys : list (Result string)) : M unit :=
  if negb INPUT_LISTENER_ENABLED then ret tt else listen keys.

(** *** Stray verifier processes *)

(** A process as [psutil.process_iter(['pid', 'name'])] shows it; the
    name is [None] when the system does not disclose it. *)
Record OsProcess := mkOsProcess {
  os_pid : Z;
  os_name : option string;
  kill_fault : option string  (* proc.kill() raises *)
}.

(** [[proc for proc in ... if 'ffmpeg' in proc.info['name'].lower()]] *)
Fixpoint stray_processes (procs : list OsProcess) : Result (list OsProcess) :=
  match procs with
  | [] => Ok []
  | proc :: rest =>
      match os_name proc with
      | None => Raise "'NoneType' object has no attribute 'lower'"
      | Some nm =>
          match stray_processes rest with
          | Ok l => Ok (if is_substring "ffmpeg" (lower nm) then proc :: l else l)
          | r => r
          end
      end
  end.

(** [for proc in stray_processes: try: proc.kill() except ...: log];
    the result lists the processes killed. *)
Fixpoint kill_each (stray : list OsProcess) : M (list Z) :=
  match stray with
  | [] => ret []
  | proc :: rest =>
      match kill_fault proc with
      | Some e =>
          logging ERROR ("Failed to kill process " +:+ pretty (os_pid proc)
                         +:+ ": " +:+ e) >>
          kill_each rest
      | None =>
          let! killed := kill_each rest in
          ret (os_pid proc :: killed)
      end
  end.

(** The value returned, and the processes killed. *)
Definition check_and_kill_stray_ffmpeg (psutil : bool)
    (procs : list OsProcess) (confirm : bool) : M (bool * list Z) :=
  if negb psutil then ret (true, [])
  else
    match stray_processes procs with
    | Raise e => raise e
    | Hang => hang
    | Ok stray =>
        match stray with
        | [] => ret (true, [])
        | _ =>
            if confirm then
              let! killed := kill_each stray in
              ret (true, killed)
            else
              logging WARNING
                "Aborting script. Please close stray FFmpeg processes manually."
              >> ret (false, [])
        end
    end.

(** *** The dependency check *)

Definition REQUIRED_PACKAGES : list (string * string) :=
  [("rich", "rich"); ("send2trash", "send2trash"); ("psutil", "psutil")].

Inductive PipOutcome :=
  | PipInstalled
  | PipCalledProcessError
  | PipFileNotFoundError
  | PipOtherError (e : string).

Record DepEnv := mkDepEnv {
  find_spec : string -> bool;   (* is the module importable? *)
  response : Result string;     (* what [input()] returns, or raises
                                   ([EOFError] on a closed input) *)
  pip : PipOutcome              (* what [pip install] does *)
}.

Definition missing_packages (denv : DepEnv) : list string :=
  (filter (fun item => find_spec denv item.2 = false) REQUIRED_PACKAGES).*1.

(** The value returned, and the packages [pip install] was run on. *)
Definition check_and_install_dependencies (denv : DepEnv)
    : Result bool * option (list string) :=
  let missing := missing_packages denv in
  match missing with
  | [] => (Ok true, None)
  | _ =>
      match response denv with
      | Raise e => (Raise e, None)
      | Hang => (Hang, None)
      | Ok typed =>
          if negb (String.eqb (lower typed) "y") then (Ok false, None)
          else
            match pip denv with
            | PipInstalled => (Ok false, Some missing)
            | PipCalledProcessError | PipFileNotFoundError =>
                (Ok false, Some missing)
            | PipOtherError e => (Raise e, Some missing)
            end
      end
  end.

(** *** Choosing the files to delete *)

(** What [Prompt.ask] gives back: the text typed, or an interruption
    ([KeyboardInterrupt], [EOFError]). *)
Inductive Answer :=
  | Typed (s : string)
  | Interrupted.

(** [corrupted_files[i - 1][0]] under the guard
    [1 <= i <= len(corrupted_files)]. *)
Definition file_with_id (corrupted_files : list (string * string)) (i : Z)
    : list string :=
  if ((1 <=? i) && (i <=? Z.of_nat (length corrupted_files)))%Z then
    match corrupted_files !! Z.to_nat (i - 1) with
    | Some entry => [entry.1]
    | None => []
    end
  else [].

(** The files one part of the choice selects; [None] is a [ValueError]. *)
Definition select_part (corrupted_files : list (string * string))
    (part : string) : option (list string) :=
  if contains "-" part then
    match split "-" part with
    | [a; b] =>
        match int_of_string a, int_of_string b with
        | Some start, Some end_ =>
            Some (range start (end_ + 1) ≫= file_with_id corrupted_files)
        | _, _ => None
        end
    | _ => None
    end
  else
    match int_of_string part with
    | Some i => Some (file_with_id corrupted_files i)
    | None => None
    end.

Fixpoint select_parts (corrupted_files : list (string * string))
    (parts : list string) (selected_files : gset string)
    : option (gset string) :=
  match parts with
  | [] => Some selected_files
  | part :: rest =>
      match select_part corrupted_files part with
      | Some chosen =>
          select_parts corrupted_files rest
            (selected_files ∪ list_to_set chosen)
      | None => None
      end
  end.

(** The order of [list(selected_files)] is that of [elements]. *)
Definition select_files_for_deletion (answer : Answer)
    (corrupted_files : list (string * string)) : M (list string) :=
  match answer with
  | Interrupted => ret []
  | Typed s =>
      let choice := lower s in
      if bool_decide (choice ∈ ["none"; "n"]) then ret []
      else if bool_decide (choice ∈ ["all"; "a"; "yes"; "y"])
      then ret (corrupted_files.*1)
      else
        match select_parts corrupted_files
                (split "," (remove_char " " choice)) ∅ with
        | Some selected_files => ret (elements selected_files)
        | None =>
            logging ERROR
              "Invalid input. Please enter numbers, ranges, 'all', or 'none'."
            >> ret []
        end
  end.

(** *** Deleting *)

(** [q] is the path [p], or lies in the directory [p]: the root is the
    same and the components of [p] are the first components of [q].
    ([Path(p) == Path(q) or Path(p) in Path(q).parents]) *)
Definition at_or_inside (p q : string) : bool :=
  let '(rp, pp) := parse p in
  let '(rq, pq) := parse q in
  String.eqb rp rq && bool_decide (pp `prefix_of` pq).

(** There is a file at [p], or in the directory [p]. *)
Definition occupied (fs : gmap string string) (p : string) : bool :=
  bool_decide (filter (fun kv => at_or_inside p kv.1 = true) fs <> ∅).

(** What the deletion observes.  A directory shows in [files] by the
    files in it; of a path with no file at or in it, [not_found] tells
    whether it is an empty directory ([None]) or is not there, with the
    error [send2trash] then raises. *)
Record DeleteEnv := mkDeleteEnv {
  confirm_deletion : Result bool;          (* what [Confirm.ask] returns,
                                              or raises *)
  not_found : string -> option string;
  trash_fault : string -> option (string * list string)
                                           (* [send2trash] raises, having
                                              moved these files already *)
}.

(** [send2trash(str(file))]: the file, or the directory with all that
    is in it, leaves its place, unless it is not there or the move
    fails; a move that fails can have taken some of the files.  The
    recycle bin is not part of [files]. *)
Definition send2trash (denv : DeleteEnv) (p : string) : M unit :=
  fun w =>
    match (if occupied (files w) p then None else not_found denv p) with
    | Some e => (Raise e, w)
    | None =>
        match trash_fault denv p with
        | Some (e, moved) =>
            (Raise e,
             set_files
               (filter (fun kv => ~ (at_or_inside p kv.1 = true /\
                                      kv.1 ∈ moved))
                       (files w)) w)
        | None =>
            (Ok tt,
             set_files (filter (fun kv => at_or_inside p kv.1 = false)
                               (files w)) w)
        end
    end.

Fixpoint delete_each (denv : DeleteEnv) (files_to_delete : list string)
    (deleted_count : nat) : M nat :=
  match files_to_delete with
  | [] => ret deleted_count
  | file :: rest =>
      let! deleted_count' :=
        try_except
          (send2trash denv file >> ret (S deleted_count))
          (fun e =>
             logging ERROR ("ERROR: Could not delete '" +:+ name file
                            +:+ "'. Reason: " +:+ e) >>
             ret deleted_count) in
      delete_each denv rest deleted_count'
  end.

(** [Confirm.ask(...)]: the answer, or the exception the prompt raises
    ([EOFError] on a closed input). *)
Definition ask {A} (answer : Result A) : M A := fun w => (answer, w).

(** The result is the count shown in the summary, [None] when the
    function returns before deleting. *)
Definition delete_files (denv : DeleteEnv) (files_to_delete : list string)
    : M (option nat) :=
  match files_to_delete with
  | [] => logging INFO "No files selected for deletion." >> ret None
  | _ =>
      let! confirmed := ask (confirm_deletion denv) in
      if negb confirmed
      then logging INFO "Deletion cancelled." >> ret None
      else
        let! deleted_count := delete_each denv files_to_delete 0 in
        ret (Some deleted_count)
  end.

(** *** The setup dialogue *)

(** The configuration dictionary: each field is a key, [None] when the
    key is absent. *)
Record Config := mkConfig {
  cfg_load_report : option string;        (* config['load_report'] *)
  cfg_directory : option string;          (* config['directory'] *)
  cfg_cache_local : option bool;          (* config['cache_local'] *)
  cfg_workers : option Z;                 (* config['workers'] *)
  cfg_save_report_path : option string    (* config['save_report_path'] *)
}.

(** The answers of the user to the successive prompts and dialogs. *)
Record SetupEnv := mkSetupEnv {
  mode : string;               (* "1" or "2" *)
  report_path : string;        (* file dialog, empty when dismissed *)
  target_dir : string;         (* folder dialog, empty when dismissed *)
  use_local_cache : bool;
  set_timeout : bool;
  timeout_seconds : Z;
  workers_wanted : Z;
  want_report : bool;
  report_name : string
}.

(** The configuration returned ([None] for Python's [None]) and the
    value of the global [ANALYSIS_TIMEOUT] afterwards. *)
Definition run_interactive_setup (senv : SetupEnv)
    (ANALYSIS_TIMEOUT : option Z) : option Config * option Z :=
  if String.eqb (mode senv) "2" then
    if is_empty (report_path senv) then (None, ANALYSIS_TIMEOUT)
    else
      (Some (mkConfig (Some (Path_of (report_path senv))) None None None None),
       ANALYSIS_TIMEOUT)
  else
    if is_empty (target_dir senv) then (None, ANALYSIS_TIMEOUT)
    else
      let ANALYSIS_TIMEOUT' :=
        if set_timeout senv then Some (timeout_seconds senv)
        else ANALYSIS_TIMEOUT in
      (Some (mkConfig None
               (Some (Path_of (target_dir senv)))
               (Some (use_local_cache senv))
               (Some (workers_wanted senv))
               (if want_report senv then Some (Path_of (report_name senv))
                else None)),
       ANALYSIS_TIMEOUT').

(** *** The main script *)

Definition VIDEO_EXTENSIONS : list string :=
  [".mp4"; ".mkv"; ".avi"; ".mov"; ".wmv"; ".flv"; ".webm"].

(** [p.suffix.lower() in VIDEO_EXTENSIONS] *)
Definition is_video (p : string) : bool :=
  bool_decide (lower (suffix p) ∈ VIDEO_EXTENSIONS).

(** What [main_script] observes.  The quit events, here and in the
    pool, presuppose a running listener. *)
Record MainEnv := mkMainEnv {
  INPUT_LISTENER_ENABLED : bool;
  ffmpeg_installed : bool;        (* is_ffmpeg_installed() *)
  rglob : list string;            (* config['directory'].rglob('*'):
                                     files and directories *)
  pool : PoolEnv;
  temp_dir_fault : string -> option string;
                                  (* a staged copy resists the removal of
                                     the temporary directory *)
  load_fault : option string;
  save_fault : option string;
  quit_before_report : bool;      (* quit key before the check of the flag *)
  answer : Answer;
  deletion : DeleteEnv
}.

Definition start_input_listener (INPUT_LISTENER_ENABLED : bool) : M unit :=
  if INPUT_LISTENER_ENABLED then ret tt (* the thread starts *)
  else
    logging WARNING
      "Could not start keyboard listener. The quit hotkey will not be available.".

Definition config_is_empty (config : Config) : bool :=
  match config with
  | mkConfig None None None None None => true
  | _ => false
  end.

(** The first part of [main_script]: the corrupted files, by loading a
    report or by scanning and analysing; [None] when the script returns
    at that stage. *)
Definition corrupted_files_of (ANALYSIS_TIMEOUT : option Z) (menv : MainEnv)
    (config : Config) : M (option (list (string * string))) :=
  match cfg_load_report config with
  | Some report_file =>
      let! corrupted_files := load_report (load_fault menv) report_file in
      ret (Some corrupted_files)
  | None =>
      if negb (ffmpeg_installed menv) then ret None
      else
        match cfg_directory config with
        | None => raise "'directory'" (* KeyError *)
        | Some _ =>
            match cfg_workers config with
            | None => raise "'workers'" (* KeyError *)
            | Some workers =>
                let video_files := filter (fun p => is_video p = true) (rglob menv) in
                match video_files with
                | [] =>
                    logging INFO "No video files found in the specified directory."
                    >> ret None
                | _ =>
                    logging INFO ("[bold]" +:+ pretty (length video_files)
                                  +:+ "[/bold] video files found.") >>
                    let! corrupted_files :=
                      run_analysis_with_exit ANALYSIS_TIMEOUT (pool menv)
                        (temp_dir_fault menv) video_files
                        (default false (cfg_cache_local config)) workers in
                    ret (Some corrupted_files)
                end
            end
        end
  end.

(** The second part of [main_script], from the check of the stop flag
    on; the quit key may have been pressed since the first part. *)
Definition report_and_delete (menv : MainEnv) (config : Config)
    (corrupted_files : list (string * string)) : M unit :=
  listener (quit_before_report menv) >>
  let! stop := is_set in
  if stop then ret tt
  else
    match corrupted_files with
    | [] => ret tt
    | _ =>
        match cfg_save_report_path config with
        | Some report_file =>
            save_report (save_fault menv) report_file corrupted_files
        | None => ret tt
        end >>
        let! files_to_delete :=
          select_files_for_deletion (answer menv) corrupted_files in
        delete_files (deletion menv) files_to_delete >> ret tt
    end.

(** [main_script(config)]; [None] is Python's [None].
    [KeyboardInterrupt] is not part of the model, and the report
    functions are those above, whose only faults are I/O errors. *)
Definition main_script (ANALYSIS_TIMEOUT : option Z) (menv : MainEnv)
    (config : option Config) : M unit :=
  match config with
  | None => ret tt
  | Some config =>
      if config_is_empty config then ret tt
      else
        start_input_listener (INPUT_LISTENER_ENABLED menv) >>
        let! found := corrupted_files_of ANALYSIS_TIMEOUT menv config in
        match found with
        | None => ret tt
        | Some corrupted_files => report_and_delete menv config corrupted_files
        end
  end.

End Interactive.

(** ** Vocabulary of the further statements *)

Module Terms.
Import Str PathLib VChecker PyLib Interactive.

(** The file the verifier is run on. *)
Definition analysed_path (env : TaskEnv) (original_path : string)
    (use_cache : bool) (temp_dir : string) : string :=
  if use_cache then staged_name env original_path temp_dir else original_path.

(** The reasons with which a file is reported. *)
Definition corruption_reason (reason : string) : Prop :=
  reason = "Corruption detected" \/
  (exists T, reason = timeout_reason T) \/
  (exists e, reason = "Local copy error: " +:+ e) \/
  (exists e, reason = "Unexpected error: " +:+ e).

(** The state apart from the log. *)
Definition same_but_log (w w' : World) : Prop :=
  STOP_EVENT w' = STOP_EVENT w /\ ACTIVE_PROCESSES w' = ACTIVE_PROCESSES w /\
  files w' = files w /\ spawned w' = spawned w /\
  terminated w' = terminated w /\ futures w' = futures w /\
  progress w' = progress w.

(** The state apart from the log and the files. *)
Definition same_processes (w w' : World) : Prop :=
  STOP_EVENT w' = STOP_EVENT w /\ ACTIVE_PROCESSES w' = ACTIVE_PROCESSES w /\
  spawned w' = spawned w /\ terminated w' = terminated w /\
  futures w' = futures w /\ progress w' = progress w.

(** [q] is the name of the staged copy of one of the submitted files. *)
Definition staged_copy (penv : PoolEnv) (video_files : list string)
    (use_cache : bool) (q : string) : Prop :=
  use_cache = true /\
  exists j file,
    video_files !! j = Some file /\
    q = staged_name (task_env penv j) file (temp_dir penv).

(** A key that neither quits nor ends the listener. *)
Definition ordinary_key (k : Result string) : Prop :=
  exists char, k = Ok char /\ is_quit_key char = false.


(** The choice is one of the key words. *)
Definition is_keyword (s : string) : bool :=
  bool_decide (lower s ∈ ["none"; "n"; "all"; "a"; "yes"; "y"]).

(** The parts of a choice that is none of the key words. *)
Definition parts_of (s : string) : list string :=
  split "," (remove_char " " (lower s)).

(** A part of the choice designates the identifier [i]. *)
Definition covers (part : string) (i : Z) : Prop :=
  if contains "-" part then
    exists a b start end_,
      split "-" part = [a; b] /\
      int_of_string a = Some start /\ int_of_string b = Some end_ /\
      (start <= i <= end_)%Z
  else int_of_string part = Some i.

(** The video files found by the scan. *)
Definition video_files_of (menv : MainEnv) : list string :=
  filter (fun p => is_video p = true) (rglob menv).

End Terms.

(** ** Further concrete scenarios *)

Module Cases.
Import Str VChecker TempDir PyLib Interactive Scenario.

(** No staged copy resists the removal of the temporary directory. *)
Definition no_resistance : string -> option string := fun _ => None.





(** One video, and a directory with the name of a video that holds a
    text file. *)
Definition w_directory : World :=
  mkWorld false ∅
          (<["/v/a.mp4" := "A"]> (<["/v/dir.avi/inner.txt" := "I"]> ∅))
          [] [] [] [] 0.


(** A report of three lines: a file that exists, one that is gone, and
    a line that is no record. *)
Definition report_content : string :=
  "/v/a.mp4" +:+ String TAB ("Corruption detected" +:+ String LF
  ("/v/gone.mp4" +:+ String TAB ("Timeout (300s)" +:+ String LF
  ("checked on Monday" +:+ String LF EmptyString)))).

(** [w_videos] with that report on disk. *)
Definition w_report : World :=
  set_files (<["/r/report.txt" := report_content]> (files w_videos)) w_videos.


(** A process whose name is not disclosed. *)
Definition hidden_process : OsProcess := mkOsProcess 1 None None.

(** Three files reported. *)
Definition three_entries : list (string * string) :=
  [("/v/a.mp4", "Corruption detected"); ("/v/b.mp4", "Timeout (300s)");
   ("/v/c.mp4", "Corruption detected")].

(** The user confirms; nothing fails but for files that are missing. *)
Definition denv_confirm : DeleteEnv :=
  mkDeleteEnv (Ok true) (fun p => Some ("[Errno 2] File not found: " +:+ p))
              (fun _ => None).

(** The input is closed when the confirmation is asked for. *)
Definition denv_closed : DeleteEnv :=
  mkDeleteEnv (Raise "EOF when reading a line")
              (fun p => Some ("[Errno 2] File not found: " +:+ p))
              (fun _ => None).

(** The user loads the report, chooses everything and confirms. *)
Definition menv_load : MainEnv :=
  mkMainEnv true true [] penv_quiet no_resistance None None false
            (Typed "all") denv_confirm.

Definition config_load : Config :=
  mkConfig (Some "/r/report.txt") None None None None.

(** A scan that finds the two videos and a text file; both videos are
    found corrupted, the user chooses the first and confirms. *)
Definition menv_scan : MainEnv :=
  mkMainEnv true true ["/v/a.mp4"; "/v/notes.txt"; "/v/b.mp4"] penv_quiet
            no_resistance None None false (Typed "1") denv_confirm.

(** A scan of [w_directory]: the directory counts as a video, is found
    corrupted, and the user chooses everything. *)
Definition menv_directory : MainEnv :=
  mkMainEnv true true ["/v/a.mp4"; "/v/dir.avi"; "/v/dir.avi/inner.txt"]
            penv_quiet no_resistance None None false (Typed "all")
            denv_confirm.

(** The same, with the quit key pressed once the analysis is over. *)
Definition menv_quit : MainEnv :=
  mkMainEnv true true ["/v/a.mp4"; "/v/notes.txt"; "/v/b.mp4"] penv_quiet
            no_resistance None None true (Typed "1") denv_confirm.

(** The answers to the setup dialogue: a scan of [/v] with [workers]
    workers, no cache, no timeout, a report to be saved. *)
Definition senv_scan (workers : Z) : SetupEnv :=
  mkSetupEnv "1" "" "/v" false false 300 workers true "report.txt".

Definition config_scan (workers : Z) : Config :=
  mkConfig None (Some "/v") (Some false) (Some workers) (Some "report.txt").

End Cases.

(** * Sanity checks of the library model *)

Example strip_ex :
  Str.strip (String Str.TAB (" a b " +:+ String Str.LF "")) = "a b".
Proof. reflexivity. Qed.

Example split_ex :
  Str.split Str.TAB ("p" +:+ String Str.TAB ("x" +:+ String Str.TAB "")) = ["p"; "x"; ""].
Proof. reflexivity. Qed.

Example path_ex :
  PathLib.Path_of "//a//b/./c/" = "//a/b/c" /\ PathLib.Path_of "///a" = "/a"
  /\ PathLib.Path_of "" = "." /\ PathLib.name "/a/b.mp4" = "b.mp4"
  /\ PathLib.joinpath "/" "y" = "/y" /\ PathLib.joinpath "/tmp/x" "ab-c.mp4" = "/tmp/x/ab-c.mp4".
Proof. repeat split; reflexivity. Qed.

Example order_ex :
  PathLib.path_leb "/v/a/x.mp4" "/v/a-b.mp4" = true /\
  PathLib.str_leb "/v/a/x.mp4" "/v/a-b.mp4" = false.
Proof. split; reflexivity. Qed.

(** ** The comparison of paths is a total preorder *)

Module PathOrder.
Import Str PathLib.

Lemma ascii_compare_refl (a : ascii) : Ascii.compare a a = Eq.
Proof. unfold Ascii.compare. apply N.compare_refl. Qed.

Lemma ascii_compare_trans (a b c : ascii) (r : comparison) :
  Ascii.compare a b = r -> Ascii.compare b c = r -> Ascii.compare a c = r.
Proof.
  unfold Ascii.compare. destruct r; intros H1 H2.
  - apply N.compare_eq_iff in H1, H2. apply N.compare_eq_iff. congruence.
  - rewrite N.compare_lt_iff in *. lia.
  - rewrite N.compare_gt_iff in *. lia.
Qed.

Lemma string_compare_refl (s : string) : String.compare s s = Eq.
Proof. induction s as [|a s IH]; simpl; [done|]. by rewrite ascii_compare_refl. Qed.

Lemma string_compare_eq (s t : string) : String.compare s t = Eq <-> s = t.
Proof.
  split; [apply String.compare_eq_iff|]. intros ->. apply string_compare_refl.
Qed.

Lemma string_compare_opp (s t : string) :
  String.compare t s = CompOpp (String.compare s t).
Proof. apply String.compare_antisym. Qed.

Lemma string_compare_trans (s t u : string) (r : comparison) :
  String.compare s t = r -> String.compare t u = r -> String.compare s u = r.
Proof.
  revert t u. induction s as [|a s IH]; intros [|b t] [|c u]; simpl;
    try congruence.
  destruct (Ascii.compare a b) eqn:Hab, (Ascii.compare b c) eqn:Hbc;
    intros H1 H2; subst; try discriminate.
  - rewrite (ascii_compare_trans a b c Eq Hab Hbc). by eapply IH.
  - apply Ascii.compare_eq_iff in Hab. subst. by rewrite Hbc.
  - apply Ascii.compare_eq_iff in Hab. subst. by rewrite Hbc.
  - apply Ascii.compare_eq_iff in Hbc. subst. by rewrite Hab.
  - by rewrite (ascii_compare_trans a b c Lt Hab Hbc).
  - apply Ascii.compare_eq_iff in Hbc. subst. by rewrite Hab.
  - by rewrite (ascii_compare_trans a b c Gt Hab Hbc).
Qed.

Lemma path_leb_total (p q : Path) : path_leb p q = true \/ path_leb q p = true.
Proof.
  unfold path_leb.
  rewrite (list_compare_antisym _ string_compare_eq (cparts p) (cparts q)
             string_compare_opp).
  destruct (list_compare String.compare (cparts p) (cparts q)); simpl; auto.
Qed.

Lemma path_leb_trans (p q r : Path) :
  path_leb p q = true -> path_leb q r = true -> path_leb p r = true.
Proof.
  unfold path_leb.
  pose proof (list_compare_trans _ string_compare_eq) as T.
  destruct (list_compare String.compare (cparts p) (cparts q)) eqn:H1;
    destruct (list_compare String.compare (cparts q) (cparts r)) eqn:H2;
    try discriminate; intros _ _.
  - by rewrite (T _ _ _ Eq string_compare_trans string_compare_opp H1 H2).
  - apply list_compare_refl in H1; [|apply string_compare_eq].
    by rewrite H1, H2.
  - apply list_compare_refl in H2; [|apply string_compare_eq].
    by rewrite <- H2, H1.
  - by rewrite (T _ _ _ Lt string_compare_trans string_compare_opp H1 H2).
Qed.

(** Two paths that compare equal both ways have the same components. *)
Lemma path_leb_antisym (p q : Path) :
  path_leb p q = true -> path_leb q p = true -> cparts p = cparts q.
Proof.
  unfold path_leb.
  rewrite (list_compare_antisym _ string_compare_eq (cparts p) (cparts q)
             string_compare_opp).
  destruct (list_compare String.compare (cparts p) (cparts q)) eqn:H;
    simpl; try discriminate.
  intros _ _. apply list_compare_refl in H; [done|apply string_compare_eq].
Qed.

End PathOrder.

(** ** Facts about the stable sort *)

Section StableSortFacts.
Context {A K : Type} (key : A -> K) (leb : K -> K -> bool).
Local Abbreviation insort := (insort key leb).
Local Abbreviation sorted := (sorted key leb).
Local Abbreviation key_le := (key_le key leb).

Lemma insort_Permutation x l : insort x l ≡ₚ x :: l.
Proof.
  induction l as [|y l IH]; simpl; [done|].
  destruct (leb (key x) (key y)); [done|]. rewrite IH. apply Permutation_swap.
Qed.

Lemma sorted_Permutation l : sorted l ≡ₚ l.
Proof.
  induction l as [|x l IH]; simpl; [done|].
  by rewrite insort_Permutation, IH.
Qed.

Lemma sorted_elem_of x l : x ∈ sorted l <-> x ∈ l.
Proof. by rewrite sorted_Permutation. Qed.

Lemma sorted_length l : length (sorted l) = length l.
Proof. by rewrite sorted_Permutation. Qed.

Lemma insort_sorted_head x l :
  Forall (key_le x) l -> insort x l = x :: l.
Proof.
  destruct l as [|y l]; simpl; [done|].
  intros H. apply Forall_cons in H as [H _]. unfold key_le in H. by rewrite H.
Qed.

(** Sorting a list that is already in order changes nothing. *)
Lemma sorted_of_StronglySorted l :
  StronglySorted key_le l -> sorted l = l.
Proof.
  induction 1 as [|x l Hl IH Hx]; simpl; [done|].
  rewrite IH. by apply insort_sorted_head.
Qed.

Hypothesis leb_total : forall a b, leb a b = true \/ leb b a = true.
Hypothesis leb_trans :
  forall a b c, leb a b = true -> leb b c = true -> leb a c = true.

Lemma insort_StronglySorted x l :
  StronglySorted key_le l -> StronglySorted key_le (insort x l).
Proof.
  induction 1 as [|y l Hl IH Hy]; simpl.
  { repeat constructor. }
  destruct (leb (key x) (key y)) eqn:Hxy.
  - constructor; [by constructor|].
    constructor; [done|].
    eapply Forall_impl; [exact Hy|]. intros z Hz. unfold key_le in *. eauto.
  - constructor; [done|].
    assert (Hyx : key_le y x).
    { unfold key_le. destruct (leb_total (key x) (key y)); congruence. }
    rewrite insort_Permutation. by constructor.
Qed.

Lemma sorted_StronglySorted l : StronglySorted key_le (sorted l).
Proof.
  induction l as [|x l IH]; simpl; [constructor|].
  by apply insort_StronglySorted.
Qed.

Lemma sorted_idempotent l : sorted (sorted l) = sorted l.
Proof. apply sorted_of_StronglySorted, sorted_StronglySorted. Qed.

(** When no two different elements of the input compare equal, the
    output does not depend on the order of the input. *)
Lemma sorted_Permutation_unique l1 l2 :
  (forall x y, x ∈ l1 -> y ∈ l1 -> key_le x y -> key_le y x -> x = y) ->
  l1 ≡ₚ l2 -> sorted l1 = sorted l2.
Proof.
  intros Hd Hp.
  apply (StronglySorted_unique_strong key_le).
  - intros x y Hx Hy. apply Hd.
    + by rewrite sorted_elem_of in Hx.
    + rewrite sorted_elem_of in Hy. by rewrite Hp.
  - apply sorted_StronglySorted.
  - apply sorted_StronglySorted.
  - by rewrite !sorted_Permutation.
Qed.
End StableSortFacts.

(** * The per-file analysis *)

Module WorkerFacts.
Import Str PathLib VChecker.

Lemma set_STOP_EVENT_id w : set_STOP_EVENT (STOP_EVENT w) w = w.
Proof. by destruct w. Qed.

Lemma listener_false w :
  STOP_EVENT w = false -> listener false w = (Ok tt, w).
Proof.
  intros H. unfold listener. rewrite H. simpl.
  by rewrite <- H, set_STOP_EVENT_id.
Qed.

Section Loop.
Variable ANALYSIS_TIMEOUT : option Z.
Variable env : TaskEnv.

(** The polling loop, described by the event that happens first. *)
Lemma poll_loop_spec p proc ts w :
  poll_loop ANALYSIS_TIMEOUT env p proc ts w =
  match first_event ANALYSIS_TIMEOUT env (STOP_EVENT w) ts with
  | Exited rc => (Ok (inr rc), w)
  | NeverExits => (Hang, w)
  | StopSeen =>
      (terminate_wait (terminate_fault env) (wait_fault env) proc >>
       ret (inl (p, false, "Cancelled"))) (set_STOP_EVENT true w)
  | TimedOut T =>
      (terminate_wait (terminate_fault env) (wait_fault env) proc >>
       ret (inl (p, true, timeout_reason T))) w
  end.
Proof.
  revert w. induction ts as [|t ts IH]; intros w; simpl.
  { by destruct (returncode env). }
  unfold bind at 1. unfold listener at 1.
  unfold bind at 1. unfold is_set at 1. simpl.
  destruct (STOP_EVENT w || quit_pressed t) eqn:Hs; [done|].
  apply orb_false_iff in Hs as [Hs Hq].
  rewrite <- Hs at 1. rewrite set_STOP_EVENT_id.
  destruct (timed_out ANALYSIS_TIMEOUT (start_time env) (now t)); [done|].
  rewrite IH. by rewrite Hs.
Qed.
End Loop.

(** Unfolds one call completely; what remains is a case distinction on
    what the environment does. *)
Ltac unfold_worker :=
  unfold check_video_corruption, try_finally, try_except, analyse,
    on_exception, release, process_var, copy2, unlink, Popen, registry_add,
    registry_discard, terminate_wait, fault, listener, is_set, path_exists,
    bind, ret, raise, hang in *;
  rewrite ?poll_loop_spec in *.

Ltac worker_cases :=
  repeat match goal with
    | |- context [poll_loop _ _ _ _ _ _] =>
        rewrite poll_loop_spec;
        unfold terminate_wait, fault, bind, ret, raise, hang; simpl
    | |- context [match ?x with _ => _ end] =>
        match x with
        | context [match _ with _ => _ end] => fail 1
        | _ => destruct x eqn:?; simpl in *
        end
    | |- context [if ?x then _ else _] =>
        match x with
        | context [if _ then _ else _] => fail 1
        | context [match _ with _ => _ end] => fail 1
        | _ => destruct x eqn:?; simpl in *
        end
    end.

Lemma check_video_corruption_shape T env p use_cache tmp w v w' :
  check_video_corruption T env p use_cache tmp w = (Ok v, w') ->
  verdict_shape p v.
Proof.
  unfold verdict_shape. unfold_worker. intros H.
  destruct use_cache; simpl in H; unfold_worker;
    revert H; worker_cases; intros H; simplify_eq; eauto 10.
Qed.

Lemma verdict_shape_path p v : verdict_shape p v -> v.1.1 = p.
Proof.
  intros [->|[->|[[T ->]|[->|[[e ->]|[e ->]]]]]]; reflexivity.
Qed.

(** A call touches neither the log, nor the progress counter, nor the
    futures, and it never clears the stop flag. *)
Lemma check_video_corruption_frame T env p use_cache tmp w r w' :
  check_video_corruption T env p use_cache tmp w = (r, w') ->
  log w' = log w /\ progress w' = progress w /\ futures w' = futures w /\
  (STOP_EVENT w' = false -> STOP_EVENT w = false).
Proof.
  destruct w as [stop reg fs sp tm fu lg pr]. unfold_worker. intros H.
  destruct use_cache; simpl in H; unfold_worker;
    revert H; worker_cases; intros H; simplify_eq; simpl;
    repeat split; try done; by destruct stop.
Qed.

(** With the flag already set the polling cannot go on for ever where,
    with the flag unset, it would not. *)
Lemma first_event_settles T env stop :
  settles T env = true -> first_event T env stop (ticks env) <> NeverExits.
Proof.
  unfold settles. destruct stop; [|by destruct (first_event _ _ _ _)].
  destruct (ticks env) as [|t ts]; simpl; [|done].
  by destruct (returncode env).
Qed.

(** A call whose polling comes to an end always comes back, with a
    verdict or with an exception. *)
Lemma check_video_corruption_no_hang T env p use_cache tmp w :
  settles T env = true ->
  (check_video_corruption T env p use_cache tmp w).1 <> Hang.
Proof.
  intros Hs.
  pose proof (fun stop => first_event_settles T env stop Hs) as Hne.
  unfold_worker.
  destruct use_cache; simpl; unfold_worker; worker_cases; try done;
    by match goal with H : first_event _ _ _ _ = NeverExits |- _ =>
         apply Hne in H end.
Qed.

(** It comes back with a verdict when, moreover, the deletion of the
    staged copy cannot fail. *)
Lemma check_video_corruption_returns T env p use_cache tmp w :
  settles T env = true ->
  deletion_succeeds use_cache env ->
  exists v, (check_video_corruption T env p use_cache tmp w).1 = Ok v.
Proof.
  intros Hs Hdel.
  pose proof (fun stop => first_event_settles T env stop Hs) as Hne.
  unfold_worker.
  destruct Hdel as [-> | Hdel]; [|destruct use_cache]; simpl;
    unfold_worker; rewrite ?Hdel; worker_cases; eauto;
    by match goal with H : first_event _ _ _ _ = NeverExits |- _ =>
         apply Hne in H end.
Qed.

Ltac absurd_lookup :=
  match goal with
  | H : bool_decide (is_Some (<[?k:=_]> _ !! ?k)) = false |- _ =>
      rewrite lookup_insert_eq in H;
      apply bool_decide_eq_false in H; destruct H; eauto
  end.

Lemma check_video_corruption_outcome T env p use_cache tmp w :
  staging_succeeds use_cache env p w ->
  deletion_succeeds use_cache env ->
  (check_video_corruption T env p use_cache tmp w).1
  = outcome_of T env p (STOP_EVENT w).
Proof.
  intros Hst Hdel. destruct w as [stop reg fs sp tm fu lg pr].
  unfold outcome_of, after_terminate, handled.
  destruct use_cache.
  - destruct Hst as [?|[[c Hc] Hf]]; [done|].
    destruct Hdel as [?|Hdel]; [done|]. simpl in Hc.
    unfold_worker. simpl. rewrite Hc, Hf, Hdel.
    worker_cases; try done; absurd_lookup.
  - unfold_worker. simpl. worker_cases; done.
Qed.

(** The handle is registered from the spawn on, and terminated before a
    timeout verdict is returned. *)
Lemma check_video_corruption_timeout_terminates T env p use_cache tmp w proc T' :
  staging_succeeds use_cache env p w ->
  Popen_outcome env = inl proc ->
  first_event T env (STOP_EVENT w) (ticks env) = TimedOut T' ->
  terminate_fault env = None ->
  proc ∈ terminated (check_video_corruption T env p use_cache tmp w).2.
Proof.
  intros Hst HP Hev Htf. destruct w as [stop reg fs sp tm fu lg pr].
  simpl in Hev.
  destruct use_cache.
  - destruct Hst as [?|[[c Hc] Hf]]; [done|]. simpl in Hc.
    unfold_worker. simpl. rewrite Hc, Hf, HP. simpl.
    rewrite poll_loop_spec. simpl. rewrite Hev.
    unfold terminate_wait, fault, bind, ret, raise. rewrite Htf. simpl.
    worker_cases; set_solver.
  - unfold_worker. simpl. rewrite HP. simpl.
    rewrite poll_loop_spec. simpl. rewrite Hev.
    unfold terminate_wait, fault, bind, ret, raise. rewrite Htf. simpl.
    worker_cases; set_solver.
Qed.

(** The files after a call that staged a copy and whose deletion meets
    no error: the copy is gone, every other file is as before. *)
Lemma check_video_corruption_unstages T env p tmp w c r w' :
  files w !! p = Some c ->
  copy2_fault env = None ->
  unlink_fault env = None ->
  check_video_corruption T env p true tmp w = (r, w') ->
  r <> Hang ->
  files w' = delete (staged_name env p tmp) (files w).
Proof.
  intros Hc Hf Hdel H Hr. destruct w as [stop reg fs sp tm fu lg pr].
  simpl in Hc. unfold staged_name. revert H.
  unfold_worker. simpl. rewrite Hc, Hf, Hdel.
  worker_cases; intros H; simplify_eq; simpl;
    try done; try absurd_lookup; by rewrite delete_insert_eq.
Qed.

(** Without staging the files are not touched at all. *)
Lemma check_video_corruption_no_cache_files T env p tmp w :
  files (check_video_corruption T env p false tmp w).2 = files w.
Proof.
  destruct w as [stop reg fs sp tm fu lg pr].
  unfold_worker. simpl. worker_cases; done.
Qed.

(** A deletion error leaves the call by an exception: no verdict. *)
Lemma check_video_corruption_unlink_error T env p tmp w c e r w' :
  files w !! p = Some c ->
  copy2_fault env = None ->
  unlink_fault env = Some e ->
  check_video_corruption T env p true tmp w = (r, w') ->
  r <> Hang ->
  r = Raise e /\ is_Some (files w' !! staged_name env p tmp) /\ log w' = log w.
Proof.
  intros Hc Hf Hdel H Hr. destruct w as [stop reg fs sp tm fu lg pr].
  simpl in Hc. unfold staged_name. revert H.
  unfold_worker. simpl. rewrite Hc, Hf, Hdel.
  worker_cases; intros H; simplify_eq; simpl;
    try done; try absurd_lookup;
    (split; [done|split; [|done]]); rewrite lookup_insert_eq; eauto.
Qed.

(** The [finally] clause on a copy that is already gone: nothing happens,
    whatever the deletion would have met. *)
Lemma release_absent env process lc w :
  files w !! lc = None ->
  exists w', release env process (Some lc) w = (Ok tt, w') /\
             files w' = files w.
Proof.
  intros Hlc. destruct w as [stop reg fs sp tm fu lg pr]. simpl in Hlc.
  unfold release, registry_discard, path_exists, bind, ret. simpl.
  destruct process as [p|]; simpl.
  - destruct (bool_decide (p ∈ reg)); simpl; rewrite Hlc; simpl; eauto.
  - rewrite Hlc. simpl. eauto.
Qed.

(** The [finally] clause on a copy that is present and can be deleted. *)
Lemma release_present env process lc w :
  is_Some (files w !! lc) ->
  unlink_fault env = None ->
  exists w', release env process (Some lc) w = (Ok tt, w') /\
             files w' = delete lc (files w).
Proof.
  intros Hlc Hdel. destruct w as [stop reg fs sp tm fu lg pr]. simpl in Hlc.
  unfold release, registry_discard, path_exists, unlink, fault, bind, ret.
  simpl. rewrite Hdel.
  destruct process as [p|]; simpl.
  - destruct (bool_decide (p ∈ reg)); simpl;
      rewrite (bool_decide_eq_true_2 _ Hlc); simpl; eauto.
  - rewrite (bool_decide_eq_true_2 _ Hlc). simpl. eauto.
Qed.

End WorkerFacts.

(** * The bulk cleanup and the worker pool *)

Module PoolFacts.
Import Str PathLib VChecker WorkerFacts.

(** Terminating the processes one by one never fails and touches nothing
    but the record of delivered terminations. *)
Lemma terminate_each_spec cenv ps w :
  exists w', terminate_each cenv ps w = (Ok tt, w') /\
    STOP_EVENT w' = STOP_EVENT w /\
    ACTIVE_PROCESSES w' = ACTIVE_PROCESSES w /\ files w' = files w /\
    spawned w' = spawned w /\ futures w' = futures w /\ log w' = log w /\
    progress w' = progress w.
Proof.
  revert w. induction ps as [|p ps IH]; intros w; simpl.
  { exists w. by unfold ret. }
  unfold bind at 1, try_except, terminate_wait, fault, bind, ret, raise.
  destruct (c_terminate_fault cenv p), (c_wait_fault cenv p); simpl;
    match goal with |- context [terminate_each cenv ps ?w0] =>
      destruct (IH w0) as (w' & -> & ? & ? & ? & ? & ? & ? & ?) end;
    exists w'; simpl in *; repeat split; congruence.
Qed.

Lemma cleanup_active_processes_spec cenv w :
  exists w', cleanup_active_processes cenv w = (Ok tt, w') /\
    ACTIVE_PROCESSES w' = ∅ /\ STOP_EVENT w' = STOP_EVENT w /\
    files w' = files w /\ spawned w' = spawned w /\
    futures w' = futures w /\ log w' = log w /\ progress w' = progress w.
Proof.
  unfold cleanup_active_processes.
  destruct (elements (ACTIVE_PROCESSES w)) as [|p ps] eqn:He.
  - exists w. apply elements_empty_iff in He.
    repeat split; try done. by apply leibniz_equiv.
  - unfold bind.
    destruct (terminate_each_spec cenv (p :: ps) w)
      as (w1 & -> & ? & ? & ? & ? & ? & ? & ?).
    eexists. split; [reflexivity|]. simpl. repeat split; congruence.
Qed.

Section Pool.
Variable ANALYSIS_TIMEOUT : option Z.
Variable penv : PoolEnv.
Variable video_files : list string.
Variable use_cache : bool.

Local Abbreviation harvest :=
  (harvest ANALYSIS_TIMEOUT penv video_files use_cache).
Local Abbreviation run_analysis :=
  (run_analysis ANALYSIS_TIMEOUT penv video_files use_cache).
Local Abbreviation produced_by_call :=
  (produced_by_call ANALYSIS_TIMEOUT penv video_files use_cache).

(** The harvesting loop: it never raises; if the stop flag is still
    unset when it ends, it has gone through every future. *)
Lemma harvest_spec order i acc w r w' :
  harvest order i acc w = (r, w') ->
  match r with
  | Hang => True
  | Raise _ => False
  | Ok corrupted_files =>
      exists new,
        futures w' = futures w ++ new /\
        Forall produced_by_call new /\
        (STOP_EVENT w' = false ->
           STOP_EVENT w = false /\
           corrupted_files = acc ++ collect (oks new) /\
           new.*1 = submitted video_files order /\
           log w' = log w ++ errors new /\
           progress w' = progress w + length new)
  end.
Proof.
  revert i acc w. induction order as [|j rest IH]; intros i acc w; simpl.
  { unfold ret. intros [= <- <-]. exists []. rewrite !app_nil_r.
    repeat split; try done; simpl; lia. }
  unfold submitted. rewrite filter_cons.
  destruct (video_files !! j) as [file|] eqn:Hj.
  2:{ rewrite decide_False by (by intros [? ?]). apply IH. }
  rewrite decide_True by eauto.
  unfold bind at 1. unfold complete_future.
  destruct (check_video_corruption _ _ _ _ _ w) as [res w1] eqn:Hw.
  pose proof (check_video_corruption_frame _ _ _ _ _ _ _ _ Hw)
    as (Hlog & Hpr & Hfu & Hstop).
  assert (produced_by_call (j, res)) as Hprod.
  { exists file, w, w1. by simpl. }
  destruct res as [v|e|]; [| |by intros [= <- <-]].
  - unfold bind at 1, listener at 1. unfold bind at 1, is_set at 1. simpl.
    destruct (STOP_EVENT w1 || quit_before_check penv i) eqn:Hs.
    { unfold ret. intros [= <- <-]. exists [(j, Ok v)]. simpl.
      rewrite Hfu. repeat split; [by constructor|done..]. }
    apply orb_false_iff in Hs as [Hs Hq].
    unfold bind at 1, try_except, future_result, bind at 1, ret at 1.
    destruct v as [[path is_corrupted] reason].
    unfold ret at 1. unfold bind at 1, progress_update at 1.
    intros H. apply IH in H. destruct r as [cf| |]; [|done..].
    destruct H as (new & Hfu' & Hprod' & Hrest). simpl in *.
    exists ((j, Ok (path, is_corrupted, reason)) :: new).
    rewrite Hfu', Hfu, <- app_assoc. split; [done|].
    split; [by constructor|]. intros Hw'.
    destruct (Hrest Hw') as (_ & Hcf & Hnew & Hlog' & Hpr').
    rewrite Hcf, Hlog', Hpr', Hlog, Hpr. unfold submitted in Hnew.
    rewrite fmap_cons, Hnew. unfold collect, oks, errors. simpl.
    repeat split; try done; try lia; try (by auto).
    destruct is_corrupted; simpl; by rewrite <- ?app_assoc.
  - unfold bind at 1, listener at 1. unfold bind at 1, is_set at 1. simpl.
    destruct (STOP_EVENT w1 || quit_before_check penv i) eqn:Hs.
    { unfold ret. intros [= <- <-]. exists [(j, Raise e)]. simpl.
      rewrite Hfu. repeat split; [by constructor|done..]. }
    apply orb_false_iff in Hs as [Hs Hq].
    unfold bind at 1, try_except, future_result, bind at 1, raise at 1.
    unfold bind at 1, logging at 1, ret at 1.
    unfold bind at 1, progress_update at 1.
    intros H. apply IH in H. destruct r as [cf| |]; [|done..].
    destruct H as (new & Hfu' & Hprod' & Hrest). simpl in *.
    exists ((j, Raise e) :: new).
    rewrite Hfu', Hfu, <- app_assoc. split; [done|].
    split; [by constructor|]. intros Hw'.
    destruct (Hrest Hw') as (_ & Hcf & Hnew & Hlog' & Hpr').
    rewrite Hcf, Hlog', Hpr', Hlog, Hpr. unfold submitted in Hnew.
    rewrite fmap_cons, Hnew. unfold collect, oks, errors. simpl.
    repeat split; try done; try lia; try (by auto).
    by rewrite <- app_assoc.
Qed.
(** The loop comes to an end when the polling of every call does. *)
Lemma harvest_no_hang order i acc w :
  (forall j, settles ANALYSIS_TIMEOUT (task_env penv j) = true) ->
  (harvest order i acc w).1 <> Hang.
Proof.
  intros Hexit. revert i acc w.
  induction order as [|j rest IH]; intros i acc w; simpl; [done|].
  destruct (video_files !! j) as [file|]; [|apply IH].
  unfold bind at 1. unfold complete_future.
  pose proof (check_video_corruption_no_hang ANALYSIS_TIMEOUT
                (task_env penv j) file use_cache (temp_dir penv) w
                (Hexit j)) as Hnh.
  destruct (check_video_corruption _ _ _ _ _ w) as [res w1].
  destruct res as [v|e|]; [| |done].
  - unfold bind at 1, listener at 1. unfold bind at 1, is_set at 1. simpl.
    destruct (STOP_EVENT w1 || quit_before_check penv i); [done|].
    unfold bind at 1, try_except, future_result, bind at 1, ret at 1.
    destruct v as [[path is_corrupted] reason].
    unfold ret at 1. unfold bind at 1, progress_update at 1. apply IH.
  - unfold bind at 1, listener at 1. unfold bind at 1, is_set at 1. simpl.
    destruct (STOP_EVENT w1 || quit_before_check penv i); [done|].
    unfold bind at 1, try_except, future_result, bind at 1, raise at 1.
    unfold bind at 1, logging at 1, ret at 1.
    unfold bind at 1, progress_update at 1. apply IH.
Qed.

(** A pool cannot be created with no worker. *)
Lemma run_analysis_no_worker workers w :
  (workers <= 0)%Z ->
  run_analysis workers w = (Raise "max_workers must be greater than 0", w).
Proof.
  intros H. unfold run_analysis.
  by rewrite (proj2 (Z.leb_le workers 0) H).
Qed.

(** The whole of [run_analysis], by the value of the stop flag when it
    ends: set, the result is empty and the registry has been cleared;
    unset, the result is the aggregation of the verdicts of all the
    futures. *)
Lemma run_analysis_spec workers w r w' :
  (0 < workers)%Z ->
  run_analysis workers w = (r, w') ->
  match r with
  | Hang => True
  | Raise _ => False
  | Ok result =>
      (STOP_EVENT w' = true -> result = [] /\ ACTIVE_PROCESSES w' = ∅) /\
      (STOP_EVENT w' = false ->
         exists new,
           futures w' = futures w ++ new /\
           Forall produced_by_call new /\
           STOP_EVENT w = false /\
           result = finalize (oks new) /\
           new.*1 = submitted video_files (completion penv) /\
           log w' = log w ++ errors new /\
           progress w' = progress w + length new)
  end.
Proof.
  intros Hw. unfold run_analysis.
  rewrite (proj2 (Z.leb_gt workers 0) Hw).
  unfold bind at 1.
  destruct (harvest (completion penv) 0 [] w) as [r0 w0] eqn:Hh.
  apply harvest_spec in Hh.
  destruct r0 as [cf|e|]; [|done|by intros [= <- <-]].
  destruct Hh as (new & Hfu & Hprod & Hrest).
  unfold bind at 1, listener at 1. unfold bind at 1, is_set at 1. simpl.
  destruct (STOP_EVENT w0 || quit_before_final penv) eqn:Hs.
  - unfold bind at 1.
    destruct (cleanup_active_processes_spec (cleanup_env penv)
                (set_STOP_EVENT true w0))
      as (w2 & -> & Hreg & Hst & _).
    unfold ret. intros [= <- <-]. simpl in Hst.
    split; [done|]. intros Hf. congruence.
  - apply orb_false_iff in Hs as [Hs Hq].
    unfold ret. intros [= <- <-]. simpl.
    split; [done|]. intros _.
    destruct (Hrest Hs) as (Hs0 & -> & Hnew & Hlog & Hpr).
    exists new. by rewrite app_nil_l.
Qed.

Lemma run_analysis_no_hang workers w :
  (forall j, settles ANALYSIS_TIMEOUT (task_env penv j) = true) ->
  (run_analysis workers w).1 <> Hang.
Proof.
  intros Hexit. unfold run_analysis.
  destruct (workers <=? 0)%Z; [done|].
  unfold bind at 1.
  pose proof (harvest_no_hang (completion penv) 0 [] w Hexit) as Hnh.
  destruct (harvest (completion penv) 0 [] w) as [[cf|e|] w0]; [|done..].
  unfold bind at 1, listener at 1. unfold bind at 1, is_set at 1. simpl.
  destruct (STOP_EVENT w0 || quit_before_final penv); [|done].
  unfold bind at 1.
  by destruct (cleanup_active_processes_spec (cleanup_env penv)
                 (set_STOP_EVENT true w0)) as (w2 & -> & _).
Qed.
End Pool.

End PoolFacts.

(** * Leaving the temporary directory *)

Module TempDirFacts.
Import Str PathLib VChecker TempDir PoolFacts.

(** A path is one of the staged names exactly when it is the name under
    which one of the submitted files is staged. *)
Lemma elem_of_staged_names penv video_files use_cache q :
  q ∈ staged_names penv video_files use_cache <->
  use_cache = true /\
  exists j file,
    video_files !! j = Some file /\
    q = staged_name (task_env penv j) file (temp_dir penv).
Proof.
  unfold staged_names. destruct use_cache.
  - rewrite elem_of_lookup_imap. naive_solver.
  - rewrite elem_of_nil. naive_solver.
Qed.

(** The removal never waits; it touches nothing but the files, deletes
    only among the paths given, and succeeds when none of those that are
    left resists. *)
Lemma remove_each_spec rmtree_fault paths w :
  exists r w',
    remove_each rmtree_fault paths w = (r, w') /\
    r <> Hang /\
    STOP_EVENT w' = STOP_EVENT w /\
    ACTIVE_PROCESSES w' = ACTIVE_PROCESSES w /\
    spawned w' = spawned w /\ terminated w' = terminated w /\
    futures w' = futures w /\ log w' = log w /\ progress w' = progress w /\
    (forall q, q ∉ paths -> files w' !! q = files w !! q) /\
    (forall q, files w' !! q = files w !! q \/ files w' !! q = None) /\
    (removable rmtree_fault paths w -> r = Ok tt).
Proof.
  revert w. induction paths as [|p paths IH]; intros w; simpl.
  { exists (Ok tt), w. unfold ret. repeat split; auto. }
  unfold bind at 1, path_exists at 1.
  destruct (decide (is_Some (files w !! p))) as [Hp|Hp].
  2:{ rewrite bool_decide_eq_false_2 by done.
      destruct (IH w) as (r & w' & -> & Hnh & ? & ? & ? & ? & ? & ? & ?
                          & Hout & Hle & Hok).
      exists r, w'. repeat split; try done.
      - intros q Hq. apply Hout. set_solver.
      - intros Hrem. apply Hok. intros q Hq. apply Hrem. set_solver. }
  rewrite bool_decide_eq_true_2 by done.
  unfold bind at 1, unlink, bind at 1, fault.
  destruct (rmtree_fault p) as [e|] eqn:Hf.
  { unfold raise. exists (Raise e), w. repeat split; auto.
    intros Hrem. rewrite (Hrem p) in Hf; [done|set_solver|done]. }
  unfold ret.
  destruct (IH (set_files (delete p (files w)) w))
    as (r & w' & -> & Hnh & ? & ? & ? & ? & ? & ? & ? & Hout & Hle & Hok).
  simpl in *. exists r, w'. repeat split; try done.
  - intros q Hq. rewrite Hout by set_solver.
    apply lookup_delete_ne. set_solver.
  - intros q. destruct (Hle q) as [->| ->]; [|by right].
    destruct (decide (p = q)) as [->|Hne].
    + right. apply lookup_delete_eq.
    + left. by apply lookup_delete_ne.
  - intros Hrem. apply Hok. intros q Hq [c Hc]. apply Hrem; [set_solver|].
    simpl in Hc. apply lookup_delete_Some in Hc as [_ Hc]. by eexists.
Qed.

(** The analysis followed by the exit of the temporary directory: the
    exit changes nothing but staged copies, which it deletes, and it is
    the only thing that can turn the result of the analysis into an
    exception. *)
Lemma run_analysis_with_exit_spec T penv rmtree_fault video_files use_cache
    workers w :
  let body := run_analysis T penv video_files use_cache workers w in
  let out := run_analysis_with_exit T penv rmtree_fault video_files use_cache
               workers w in
  STOP_EVENT out.2 = STOP_EVENT body.2 /\
  ACTIVE_PROCESSES out.2 = ACTIVE_PROCESSES body.2 /\
  spawned out.2 = spawned body.2 /\ terminated out.2 = terminated body.2 /\
  futures out.2 = futures body.2 /\ log out.2 = log body.2 /\
  progress out.2 = progress body.2 /\
  (forall q, q ∉ staged_names penv video_files use_cache ->
     files out.2 !! q = files body.2 !! q) /\
  (forall q, files out.2 !! q = files body.2 !! q \/ files out.2 !! q = None) /\
  (out.1 = body.1 \/ exists e, out.1 = Raise e) /\
  (removable rmtree_fault (staged_names penv video_files use_cache) body.2 ->
   out.1 = body.1).
Proof.
  intros body out. subst body out.
  unfold run_analysis_with_exit, try_finally, leave_temp_dir.
  destruct (run_analysis T penv video_files use_cache workers w)
    as [r w1]. cbn [fst snd].
  destruct (remove_each_spec rmtree_fault
              (staged_names penv video_files use_cache) w1)
    as (r2 & w2 & Hrm & Hnh & ? & ? & ? & ? & ? & ? & ? & Hout & Hle & Hok).
  destruct r as [result|e|]; [| |repeat split; auto];
    rewrite Hrm; destruct r2 as [[]|e2|]; try done; cbn [fst snd];
    repeat split; eauto; intros Hrem; by specialize (Hok Hrem).
Qed.

End TempDirFacts.

(** * Properties of the per-file analysis *)

Section WorkerClaims.
Import Str PathLib VChecker WorkerFacts Scenario.

(** C5: a call with [use_cache=true] whose staging copy fails (the source
    is missing, or the copy meets an I/O error) returns at once the verdict
    [(path, True, "Local copy error: ...")]; no verifier process is
    spawned and the registry is as before: the state is untouched. *)
Theorem copy_failure_yields_copy_error T env p tmp w :
  files w !! p = None \/ is_Some (copy2_fault env) ->
  let out := check_video_corruption T env p true tmp w in
  (exists e, out.1 = Ok (p, true, "Local copy error: " +:+ e)) /\
  spawned out.2 = spawned w /\
  ACTIVE_PROCESSES out.2 = ACTIVE_PROCESSES w /\
  out.2 = w.
Proof.
  intros H. unfold check_video_corruption, copy2. simpl.
  destruct (files w !! p) as [c|] eqn:Hc.
  - destruct H as [?|[e He]]; [done|]. rewrite He. simpl. eauto.
  - simpl. eauto.
Qed.

Lemma copy_failure_yields_copy_error_witness :
  files w_videos !! "/v/missing.mp4" = None /\
  (check_video_corruption None (env_exit 1 0) "/v/missing.mp4" true "/tmp/t"
     w_videos).1
  = Ok ("/v/missing.mp4", true,
        "Local copy error: [Errno 2] No such file or directory: '/v/missing.mp4'")
  /\ spawned (check_video_corruption None (env_exit 1 0) "/v/missing.mp4" true
                "/tmp/t" w_videos).2 = [].
Proof.
  assert (files w_videos !! "/v/missing.mp4" = None) as H by reflexivity.
  split; [exact H|].
  destruct (copy_failure_yields_copy_error None (env_exit 1 0)
              "/v/missing.mp4" "/tmp/t" w_videos (or_introl H))
    as (_ & Hsp & _ & _).
  split; [reflexivity|exact Hsp].
Defined.

Lemma append_String a s t : String a s +:+ t = String a (s +:+ t).
Proof. reflexivity. Qed.

(** A verdict with the reason [Cancelled] is never a corrupted one. *)
Lemma cancelled_not_corrupted T env p use_cache tmp w q c w' :
  check_video_corruption T env p use_cache tmp w = (Ok (q, c, "Cancelled"), w') ->
  c = false.
Proof.
  intros H. apply check_video_corruption_shape in H.
  destruct H as [H|[H|[[T' H]|[H|[[e H]|[e H]]]]]];
    unfold timeout_reason in H; rewrite ?append_String in H; congruence.
Qed.

(** When the timeout is the first event, it is the configured one. *)
Lemma first_event_TimedOut T env stop ts T' :
  first_event T env stop ts = TimedOut T' -> T = Some T'.
Proof.
  revert stop. induction ts as [|t ts IH]; intros stop; simpl.
  - by destruct (returncode env).
  - destruct (stop || quit_pressed t); [done|].
    destruct (timed_out T (start_time env) (now t)) as [T0|] eqn:Ht; [|apply IH].
    intros [= ->]. unfold timed_out in Ht.
    destruct T as [T0|]; [|done]. by destruct (Qgtb _ _); simplify_eq.
Qed.

(** C3 (amended): when the staging, if any, succeeded and the final deletion
    of the staged copy, if any, raises nothing, an analysis that is not
    cancelled is classified by what happens first.  The verifier exits on
    its own with code 0: [(path, False, "Healthy")]; with any other code:
    [(path, True, "Corruption detected")].  The configured timeout elapses
    first and neither [terminate()] nor the bounded wait raises: the
    process has been sent the termination and the verdict is
    [(path, True, "Timeout (<seconds>s)")].  An exception raised by the
    spawn, or by the termination or the wait after the timeout, while the
    stop flag is unset: [(path, True, "Unexpected error: <message>")]. *)
Theorem verdict_classification T env p use_cache tmp w :
  staging_succeeds use_cache env p w ->
  deletion_succeeds use_cache env ->
  let out := check_video_corruption T env p use_cache tmp w in
  let first := first_event T env (STOP_EVENT w) (ticks env) in
  (forall proc, Popen_outcome env = inl proc ->
     (first = Exited 0 -> out.1 = Ok (p, false, "Healthy")) /\
     (forall rc, first = Exited rc -> rc <> 0%Z ->
        out.1 = Ok (p, true, "Corruption detected")) /\
     (forall T', first = TimedOut T' ->
        terminate_fault env = None -> wait_fault env = None ->
        T = Some T' /\ proc ∈ terminated out.2 /\
        out.1 = Ok (p, true, timeout_reason T')) /\
     (forall T' e, first = TimedOut T' ->
        terminate_fault env = Some e \/
        (terminate_fault env = None /\ wait_fault env = Some e) ->
        STOP_EVENT w || quit_before_except env = false ->
        out.1 = Ok (p, true, "Unexpected error: " +:+ e))) /\
  (forall e, Popen_outcome env = inr e ->
     STOP_EVENT w || quit_before_except env = false ->
     out.1 = Ok (p, true, "Unexpected error: " +:+ e)).
Proof.
  intros Hst Hdel out first. subst out first.
  rewrite (check_video_corruption_outcome T env p use_cache tmp w Hst Hdel).
  unfold outcome_of, after_terminate, handled.
  split.
  - intros proc HP. rewrite HP. repeat split.
    + by intros ->.
    + intros rc -> Hrc. by rewrite (proj2 (Z.eqb_neq rc 0) Hrc).
    + by eapply first_event_TimedOut.
    + by eapply check_video_corruption_timeout_terminates.
    + by match goal with
         | Hev : _ = TimedOut _, Ht : terminate_fault env = None,
           Hw : wait_fault env = None |- _ => rewrite Hev, Ht, Hw
         end.
    + intros T' e -> [Hf|[Hf Hw]] ->; rewrite Hf; [done|by rewrite Hw].
  - intros e -> ->. done.
Qed.

Lemma verdict_classification_witness :
  (check_video_corruption (Some 5%Z) (env_exit 1 0) "/v/a.mp4" true "/tmp/t"
     w_videos).1 = Ok ("/v/a.mp4", false, "Healthy") /\
  (check_video_corruption (Some 5%Z) (env_exit 1 1) "/v/a.mp4" true "/tmp/t"
     w_videos).1 = Ok ("/v/a.mp4", true, "Corruption detected") /\
  (check_video_corruption (Some 2%Z) (env_exit 1 0) "/v/a.mp4" true "/tmp/t"
     w_videos).1 = Ok ("/v/a.mp4", true, "Timeout (2s)") /\
  (check_video_corruption (Some 2%Z) (env_wait_fault 1) "/v/a.mp4" true "/tmp/t"
     w_videos).1
  = Ok ("/v/a.mp4", true,
        "Unexpected error: Command 'ffmpeg' timed out after 5 seconds") /\
  (check_video_corruption None env_spawn_fault "/v/a.mp4" true "/tmp/t"
     w_videos).1
  = Ok ("/v/a.mp4", true,
        "Unexpected error: [Errno 2] No such file or directory: 'ffmpeg'").
Proof.
  assert (forall env, copy2_fault env = None ->
            staging_succeeds true env "/v/a.mp4" w_videos) as Hst.
  { intros env H. right. split; [by exists "A"|exact H]. }
  assert (forall env, unlink_fault env = None ->
            deletion_succeeds true env) as Hdel.
  { intros env H. by right. }
  split; [|split; [|split; [|split]]].
  - destruct (verdict_classification (Some 5%Z) (env_exit 1 0) "/v/a.mp4"
                true "/tmp/t" w_videos (Hst (env_exit 1 0) eq_refl) (Hdel (env_exit 1 0) eq_refl))
      as [H _].
    destruct (H 1%positive eq_refl) as (H0 & _). exact (H0 eq_refl).
  - destruct (verdict_classification (Some 5%Z) (env_exit 1 1) "/v/a.mp4"
                true "/tmp/t" w_videos (Hst (env_exit 1 1) eq_refl) (Hdel (env_exit 1 1) eq_refl))
      as [H _].
    destruct (H 1%positive eq_refl) as (_ & H1 & _).
    exact (H1 1%Z eq_refl ltac:(lia)).
  - destruct (verdict_classification (Some 2%Z) (env_exit 1 0) "/v/a.mp4"
                true "/tmp/t" w_videos (Hst (env_exit 1 0) eq_refl) (Hdel (env_exit 1 0) eq_refl))
      as [H _].
    destruct (H 1%positive eq_refl) as (_ & _ & H2 & _).
    exact (proj2 (proj2 (H2 2%Z eq_refl eq_refl eq_refl))).
  - destruct (verdict_classification (Some 2%Z) (env_wait_fault 1) "/v/a.mp4"
                true "/tmp/t" w_videos (Hst (env_wait_fault 1) eq_refl) (Hdel (env_wait_fault 1) eq_refl))
      as [H _].
    destruct (H 1%positive eq_refl) as (_ & _ & _ & H3).
    exact (H3 2%Z _ eq_refl (or_intror (conj eq_refl eq_refl)) eq_refl).
  - destruct (verdict_classification None env_spawn_fault "/v/a.mp4"
                true "/tmp/t" w_videos (Hst env_spawn_fault eq_refl) (Hdel env_spawn_fault eq_refl))
      as [_ H].
    exact (H _ eq_refl eq_refl).
Defined.

(** C3 as stated fails in two corners.  The verifier exits on its own
    with code 0 and nothing is cancelled, but the staged copy cannot be
    deleted: the call raises and there is no verdict.  The timeout elapses
    first, but the process outlives the bounded wait: the verdict is an
    unexpected error, not a timeout. *)
Lemma verdict_classification_counterexample :
  (Popen_outcome (env_unlink_fault 1 0) = inl 1%positive /\
   first_event None (env_unlink_fault 1 0) (STOP_EVENT w_videos)
     (ticks (env_unlink_fault 1 0)) = Exited 0 /\
   (check_video_corruption None (env_unlink_fault 1 0) "/v/a.mp4" true
      "/tmp/t" w_videos).1
   = Raise "[WinError 32] The process cannot access the file" /\
   (check_video_corruption None (env_unlink_fault 1 0) "/v/a.mp4" true
      "/tmp/t" w_videos).1
   <> Ok ("/v/a.mp4", false, "Healthy")) /\
  (first_event (Some 2%Z) (env_wait_fault 1) (STOP_EVENT w_videos)
     (ticks (env_wait_fault 1)) = TimedOut 2 /\
   (check_video_corruption (Some 2%Z) (env_wait_fault 1) "/v/a.mp4" false
      "/tmp/t" w_videos).1
   = Ok ("/v/a.mp4", true,
         "Unexpected error: Command 'ffmpeg' timed out after 5 seconds") /\
   (check_video_corruption (Some 2%Z) (env_wait_fault 1) "/v/a.mp4" false
      "/tmp/t" w_videos).1
   <> Ok ("/v/a.mp4", true, timeout_reason 2)).
Proof. repeat split; try reflexivity; by vm_compute. Qed.

(** C8 (amended): when a staged copy was created and its deletion raises
    nothing, the copy is gone from local storage when the call ends,
    whatever the way it ends (healthy, corruption detected, timeout,
    cancellation, exception), and all other files are as before; the
    deletion step does nothing, and cannot fail, when the copy is already
    removed. *)
Theorem staged_copy_is_released T env p tmp w c :
  files w !! p = Some c ->
  copy2_fault env = None ->
  unlink_fault env = None ->
  let out := check_video_corruption T env p true tmp w in
  let local_copy := staged_name env p tmp in
  out.1 <> Hang ->
  files out.2 !! local_copy = None /\
  files out.2 = delete local_copy (files w) /\
  (forall env' process w0,
     files w0 !! local_copy = None ->
     exists w1, release env' process (Some local_copy) w0 = (Ok tt, w1) /\
                files w1 = files w0).
Proof.
  intros Hc Hf Hdel out local_copy Hr. subst out local_copy.
  destruct (check_video_corruption T env p true tmp w) as [r w'] eqn:H.
  simpl in *.
  pose proof (check_video_corruption_unstages T env p tmp w c r w'
                Hc Hf Hdel H Hr) as Hfiles.
  rewrite Hfiles. split; [apply lookup_delete_eq|]. split; [done|].
  intros env' process w0 H0. by apply release_absent.
Qed.

Lemma staged_copy_is_released_witness :
  staged_name (env_exit 1 1) "/v/a.mp4" "/tmp/t" = "/tmp/t/00ff-a.mp4" /\
  files (check_video_corruption None (env_exit 1 1) "/v/a.mp4" true "/tmp/t"
           w_videos).2 !! "/tmp/t/00ff-a.mp4" = None.
Proof.
  split; [reflexivity|].
  exact (proj1 (staged_copy_is_released None (env_exit 1 1) "/v/a.mp4"
                  "/tmp/t" w_videos "A" eq_refl eq_refl eq_refl
                  ltac:(by vm_compute))).
Defined.

(** C8 as stated fails: a deletion error is not ignored.  The verifier
    reported a corruption, the staged copy could not be deleted: the call
    ends with the deletion error instead of the verdict, the copy is still
    there, and the analysis has logged nothing. *)
Lemma staged_copy_is_released_counterexample :
  let out := check_video_corruption None (env_unlink_fault 1 1) "/v/a.mp4"
               true "/tmp/t" w_videos in
  out.1 = Raise "[WinError 32] The process cannot access the file" /\
  files out.2 !! staged_name (env_unlink_fault 1 1) "/v/a.mp4" "/tmp/t"
  = Some "A" /\
  log out.2 = [].
Proof. repeat split; by vm_compute. Qed.

End WorkerClaims.

(** * Properties of the worker pool *)

Section PoolClaims.
Import Str PathLib VChecker TempDir WorkerFacts PoolFacts TempDirFacts.
Import Scenario Cases.

(** The stop flag is never cleared: set when the run starts, or by a key
    press before the last check, it is set when the run ends. *)
Lemma run_analysis_stop_set T penv video_files use_cache workers w :
  (0 < workers)%Z ->
  let out := run_analysis T penv video_files use_cache workers w in
  out.1 <> Hang ->
  STOP_EVENT w = true \/ quit_before_final penv = true ->
  STOP_EVENT out.2 = true.
Proof.
  intros Hw out Hnh Hset. subst out.
  destruct (STOP_EVENT (run_analysis T penv video_files use_cache workers w).2)
    eqn:Hs; [done|].
  destruct (run_analysis T penv video_files use_cache workers w)
    as [r w'] eqn:Hrun. simpl in *.
  pose proof Hrun as Hrun'. apply run_analysis_spec in Hrun; [|done].
  destruct r as [result|e|]; [|done..].
  destruct Hrun as [_ Hunset].
  destruct (Hunset Hs) as (new & _ & _ & Hw0 & _).
  destruct Hset as [Hset|Hq]; [congruence|].
  revert Hrun'. unfold run_analysis.
  rewrite (proj2 (Z.leb_gt workers 0) Hw). unfold bind at 1.
  destruct (harvest T penv video_files use_cache (completion penv) 0 [] w)
    as [[cf|e|] w0]; [|by intros [= <-]..].
  unfold bind at 1, listener at 1. unfold bind at 1, is_set at 1. simpl.
  rewrite Hq, orb_true_r. unfold bind at 1.
  destruct (cleanup_active_processes_spec (cleanup_env penv)
              (set_STOP_EVENT true w0)) as (w2 & -> & _ & Hst & _).
  unfold ret. intros [= <- <-]. simpl in Hst. congruence.
Qed.



(** When every index of the completion order is a submitted task, all
    the futures exist. *)
Lemma submitted_all (video_files : list string) (order : list nat) :
  order ≡ₚ seq 0 (length video_files) -> submitted video_files order = order.
Proof.
  intros Hp. unfold submitted.
  assert (Forall (fun j => j < length video_files) order) as Hall.
  { apply Forall_forall. intros j Hj. rewrite Hp in Hj.
    apply elem_of_seq in Hj. lia. }
  clear Hp. induction Hall as [|j rest Hj _ IH]; [done|].
  rewrite filter_cons, IH.
  rewrite decide_True; [done|]. by apply lookup_lt_is_Some.
Qed.

Lemma oks_length_all (new : list (nat * Result Verdict)) :
  Forall (fun f => exists v, f.2 = Ok v) new -> length (oks new) = length new.
Proof.
  induction 1 as [|[j r] new [v Hv] _ IH]; [done|].
  simpl in Hv. subst r. unfold oks in *. simpl. f_equal. exact IH.
Qed.

Lemma elem_of_collect path reason (vs : list Verdict) :
  (path, reason) ∈ collect vs <-> (path, true, reason) ∈ vs.
Proof.
  unfold collect. rewrite list_elem_of_omap. split.
  - intros ([[q c] r] & Hin & Hrec). simpl in Hrec.
    destruct c; simplify_eq. done.
  - intros Hin. by exists (path, true, reason).
Qed.

Lemma elem_of_finalize path reason (vs : list Verdict) :
  (path, reason) ∈ finalize vs <-> (path, true, reason) ∈ vs.
Proof. unfold finalize. by rewrite sorted_elem_of, elem_of_collect. Qed.

Lemma elem_of_oks v (new : list (nat * Result Verdict)) :
  v ∈ oks new <-> exists j, (j, Ok v) ∈ new.
Proof.
  unfold oks. rewrite list_elem_of_omap. split.
  - intros ([j r] & Hin & Hv). unfold future_verdict in Hv. simpl in Hv.
    destruct r; simplify_eq. eauto.
  - intros [j Hin]. by exists (j, Ok v).
Qed.


(** C2 (amended): for every task set of size K run with at least one
    worker, when the stop flag is never set, every future completes,
    every verifier process exits or is timed out and no deletion of a
    staged copy fails,
    exactly K verdicts are produced: each task's future holds one verdict,
    for that task's path, and the result is the aggregation of these K
    verdicts. *)
Theorem every_task_yields_one_verdict T penv video_files use_cache workers w :
  (1 <= workers)%Z ->
  completion penv ≡ₚ seq 0 (length video_files) ->
  (forall j, settles T (task_env penv j) = true) ->
  (forall j, deletion_succeeds use_cache (task_env penv j)) ->
  let out := run_analysis T penv video_files use_cache workers w in
  STOP_EVENT out.2 = false ->
  exists new,
    futures out.2 = futures w ++ new /\
    new.*1 = completion penv /\
    Forall (fun f => exists v, f.2 = Ok v /\
                               video_files !! f.1 = Some v.1.1) new /\
    length (oks new) = length video_files /\
    out.1 = Ok (finalize (oks new)) /\
    progress out.2 = progress w + length video_files.
Proof.
  intros Hw Hperm Hexit Hdel out Hstop. subst out.
  pose proof (run_analysis_no_hang T penv video_files use_cache workers w Hexit)
    as Hnh.
  destruct (run_analysis T penv video_files use_cache workers w)
    as [r w'] eqn:Hrun.
  apply run_analysis_spec in Hrun; [|lia]. simpl in *.
  destruct r as [result|e|]; [|done..].
  destruct Hrun as [_ Hunset].
  destruct (Hunset Hstop) as (new & Hfu & Hprod & _ & -> & Hnew & _ & Hpr).
  rewrite submitted_all in Hnew by done.
  assert (Forall (fun f => exists v, f.2 = Ok v /\
                                     video_files !! f.1 = Some v.1.1) new)
    as Hall.
  { eapply Forall_impl; [exact Hprod|].
    intros [j r] (file & wa & wb & Hfile & Hcall). simpl in *.
    destruct (check_video_corruption_returns T (task_env penv j) file
                use_cache (temp_dir penv) wa (Hexit j) (Hdel j)) as [v Hv].
    rewrite Hcall in Hv. simpl in Hv. subst r.
    exists v. split; [done|].
    apply check_video_corruption_shape, verdict_shape_path in Hcall.
    by rewrite Hcall. }
  assert (length new = length video_files) as Hlen.
  { rewrite <- (length_fmap fst new), Hnew, Hperm. apply length_seq. }
  exists new. repeat split; try done.
  - rewrite oks_length_all; [done|].
    eapply Forall_impl; [exact Hall|]. naive_solver.
  - by rewrite Hpr, Hlen.
Qed.

Lemma every_task_yields_one_verdict_witness :
  let out := run_analysis None penv_quiet ["/v/a.mp4"; "/v/b.mp4"] true 2
               w_videos in
  exists new,
    futures out.2 = [] ++ new /\ new.*1 = [1; 0] /\
    length (oks new) = 2 /\
    out.1 = Ok (finalize (oks new)) /\ progress out.2 = 0 + 2.
Proof.
  assert (forall j, settles None (task_env penv_quiet j) = true) as Hexit.
  { by intros j. }
  assert (forall j, deletion_succeeds true (task_env penv_quiet j)) as Hdel.
  { intros j. by right. }
  destruct (every_task_yields_one_verdict None penv_quiet
              ["/v/a.mp4"; "/v/b.mp4"] true 2 w_videos ltac:(lia)
              (Permutation_swap 0 1 []) Hexit Hdel ltac:(by vm_compute))
    as (new & H1 & H2 & _ & H3 & H4 & H5).
  exists new. repeat split; assumption.
Defined.

(** C2 as stated fails.  One task, the stop flag never set, one worker:
    the verifier reports a corruption but the staged copy cannot be
    deleted, and the only future holds an exception, not a verdict; the
    file is missing from the result.  And when the verifier never exits
    and no timeout is configured, the pool never returns. *)
Lemma every_task_yields_one_verdict_counterexample :
  (let out := run_analysis None penv_raise ["/v/a.mp4"] true 1 w_videos in
   STOP_EVENT out.2 = false /\
   futures out.2
   = [(0, Raise "[WinError 32] The process cannot access the file")] /\
   length (oks (futures out.2)) <> length ["/v/a.mp4"] /\
   out.1 = Ok []) /\
  (run_analysis None penv_hang ["/v/a.mp4"] false 1 w_videos).1 = Hang.
Proof. repeat split; by vm_compute. Qed.




(** C4: a verdict with the reason [Cancelled] always has
    [is_corrupted = False]; hence, in the aggregation of any sequence of
    such verdicts, and in the result of [run_analysis], no entry has the
    reason [Cancelled]. *)
Theorem cancelled_never_reported :
  (forall T env p use_cache tmp w q c w',
     check_video_corruption T env p use_cache tmp w
     = (Ok (q, c, "Cancelled"), w') ->
     c = false) /\
  (forall vs : list Verdict,
     (forall q c, (q, c, "Cancelled") ∈ vs -> c = false) ->
     forall q r, (q, r) ∈ finalize vs -> r <> "Cancelled") /\
  (forall T penv video_files use_cache workers w result w',
     run_analysis T penv video_files use_cache workers w = (Ok result, w') ->
     forall q r, (q, r) ∈ result -> r <> "Cancelled").
Proof.
  assert (forall vs : list Verdict,
            (forall q c, (q, c, "Cancelled") ∈ vs -> c = false) ->
            forall q r, (q, r) ∈ finalize vs -> r <> "Cancelled") as Hagg.
  { intros vs Hvs q r Hin ->. apply elem_of_finalize in Hin.
    by apply Hvs in Hin. }
  split; [|split; [exact Hagg|]].
  - intros T env p use_cache tmp w q c w'. apply cancelled_not_corrupted.
  - intros T penv video_files use_cache workers w result w' Hrun q r Hin.
    destruct (Z.leb_spec workers 0) as [Hle|Hlt].
    { by rewrite run_analysis_no_worker in Hrun. }
    apply run_analysis_spec in Hrun; [|done].
    destruct Hrun as [Hset Hunset].
    destruct (STOP_EVENT w') eqn:Hstop.
    { destruct (Hset eq_refl) as [-> _]. by apply elem_of_nil in Hin. }
    destruct (Hunset eq_refl) as (new & _ & Hprod & _ & -> & _).
    eapply Hagg; [|exact Hin].
    intros q' c Hq. apply elem_of_oks in Hq as [j Hj].
    rewrite Forall_forall in Hprod.
    destruct (Hprod _ Hj) as (file & wa & wb & _ & Hcall). simpl in Hcall.
    by eapply cancelled_not_corrupted.
Qed.

Lemma cancelled_never_reported_witness :
  (check_video_corruption None (env_cancel 1) "/v/a.mp4" false "/tmp/t"
     w_videos).1 = Ok ("/v/a.mp4", false, "Cancelled") /\
  finalize [("/v/a.mp4", false, "Cancelled");
            ("/v/b.mp4", true, "Corruption detected")]
  = [("/v/b.mp4", "Corruption detected")] /\
  "Corruption detected" <> "Cancelled".
Proof.
  split; [by vm_compute|]. split; [by vm_compute|].
  destruct cancelled_never_reported as (_ & H & _).
  apply (H [("/v/a.mp4", false, "Cancelled");
            ("/v/b.mp4", true, "Corruption detected")]) with (q := "/v/b.mp4").
  - intros q c Hin.
    apply elem_of_cons in Hin as [Hin|Hin]; [congruence|].
    apply elem_of_cons in Hin as [Hin|Hin]; [congruence|].
    by apply elem_of_nil in Hin.
  - apply elem_of_finalize. set_solver.
Defined.

End PoolClaims.

(** * Strings: stripping, splitting, lines *)

Module StrFacts.
Import Str.



















End StrFacts.

(** * Reports *)

Module ReportFacts.
Import Str PathLib VChecker StrFacts.

Lemma set_log_set_log l1 l2 w : set_log l2 (set_log l1 w) = set_log l2 w.
Proof. by destruct w. Qed.

Lemma set_log_id w : set_log (log w) w = w.
Proof. by destruct w. Qed.

Lemma load_lines_cons line ls acc :
  load_lines (line :: ls) acc =
  match parse_line line with
  | Some (path, reason) =>
      let! present := path_exists path in
      if present then load_lines ls (acc ++ [(path, reason)])
      else
        logging WARNING
          ("File listed in report not found, skipping: " +:+ path) >>
        load_lines ls acc
  | None => load_lines ls acc
  end.
Proof.
  unfold parse_line. simpl.
  by destruct (split TAB (strip line)) as [|? [|? [|? ?]]].
Qed.

Lemma omap_cons {A B} (f : A -> option B) x l :
  omap f (x :: l) = match f x with Some y => y :: omap f l | None => omap f l end.
Proof. reflexivity. Qed.

(** The loading loop in closed form: the pairs of the two-field lines
    whose path exists, and a warning for each of the others. *)
Lemma load_lines_spec ls acc w :
  load_lines ls acc w =
  (Ok (acc ++ filter (present (files w)) (omap parse_line ls)),
   set_log (log w ++ (missing_warning <$>
                      filter (fun e => ~ present (files w) e)
                             (omap parse_line ls))) w).
Proof.
  revert acc w. induction ls as [|line ls IH]; intros acc w.
  { simpl. unfold ret. by rewrite !app_nil_r, set_log_id. }
  rewrite load_lines_cons, omap_cons.
  destruct (parse_line line) as [[path reason]|]; [|apply IH].
  unfold bind, path_exists. rewrite !filter_cons. unfold present at 1 3.
  simpl. destruct (decide (is_Some (files w !! path))) as [Hp|Hp].
  - rewrite (bool_decide_eq_true_2 _ Hp).
    rewrite decide_False by (by intros H; apply H).
    rewrite IH. by rewrite <- app_assoc.
  - rewrite (bool_decide_eq_false_2 _ Hp).
    rewrite decide_True by done.
    unfold logging. rewrite IH. simpl.
    rewrite set_log_set_log, <- app_assoc. done.
Qed.

Lemma load_report_spec report_file content w :
  files w !! report_file = Some content ->
  load_report None report_file w =
  (Ok (filter (present (files w)) (omap parse_line (readlines content))),
   set_log (log w ++
            (missing_warning <$>
             filter (fun e => ~ present (files w) e)
                    (omap parse_line (readlines content))) ++
            [loaded_info report_file]) w).
Proof.
  intros Hf. unfold load_report. rewrite Hf.
  unfold try_except, fault, bind at 1, ret at 1. unfold bind at 1.
  rewrite load_lines_spec. simpl.
  unfold bind, logging, ret. simpl.
  by rewrite set_log_set_log, <- app_assoc.
Qed.






End ReportFacts.

Section ReportClaims.
Import Str PathLib VChecker StrFacts ReportFacts Scenario Cases.







End ReportClaims.

(** * The aggregation step *)

Section AggregationClaims.
Import Str PathLib VChecker PathOrder Scenario.

Lemma NoDup_fmap_eq {A B} (f : A -> B) (l : list A) x y :
  NoDup (f <$> l) -> x ∈ l -> y ∈ l -> f x = f y -> x = y.
Proof.
  induction l as [|a l IH]; simpl; intros Hnd Hx Hy Hf.
  { by apply elem_of_nil in Hx. }
  apply NoDup_cons in Hnd as [Ha Hnd].
  apply elem_of_cons in Hx as [->|Hx]; apply elem_of_cons in Hy as [->|Hy].
  - done.
  - destruct Ha. rewrite Hf. by apply list_elem_of_fmap_2.
  - destruct Ha. rewrite <- Hf. by apply list_elem_of_fmap_2.
  - by apply IH.
Qed.

(** C6 (amended): the aggregation keeps exactly the verdicts with
    [is_corrupted] and orders them by path, ascending in the order of
    [Path] objects, which compares paths component by component; for two
    arrangements of the same verdicts whose corrupted entries have
    pairwise distinct paths the output is the same list; and sorting the
    output again changes nothing. *)
Theorem aggregation_is_sorted_and_deterministic :
  (forall vs,
     finalize vs ≡ₚ collect vs /\
     (forall path reason,
        (path, reason) ∈ finalize vs <-> (path, true, reason) ∈ vs) /\
     StronglySorted (fun x y => path_leb x.1 y.1 = true) (finalize vs)) /\
  (forall vs1 vs2,
     vs1 ≡ₚ vs2 ->
     NoDup ((fun e => cparts e.1) <$> collect vs1) ->
     finalize vs1 = finalize vs2) /\
  (forall vs, sorted fst path_leb (finalize vs) = finalize vs).
Proof.
  split; [|split].
  - intros vs. split; [apply sorted_Permutation|]. split.
    + intros path reason. apply elem_of_finalize.
    + apply (sorted_StronglySorted fst path_leb path_leb_total path_leb_trans).
  - intros vs1 vs2 Hp Hnd. unfold finalize.
    apply (sorted_Permutation_unique fst path_leb path_leb_total path_leb_trans).
    + intros x y Hx Hy Hxy Hyx.
      apply (NoDup_fmap_eq (fun e => cparts e.1) (collect vs1)); try done.
      by apply path_leb_antisym.
    + unfold collect. by rewrite Hp.
  - intros vs.
    apply (sorted_idempotent fst path_leb path_leb_total path_leb_trans).
Qed.

Lemma aggregation_is_sorted_and_deterministic_witness :
  finalize [("/v/b.mp4", true, "Corruption detected");
            ("/v/c.mp4", false, "Healthy");
            ("/v/a.mp4", true, "Timeout (5s)")]
  = finalize [("/v/a.mp4", true, "Timeout (5s)");
              ("/v/b.mp4", true, "Corruption detected");
              ("/v/c.mp4", false, "Healthy")].
Proof.
  destruct aggregation_is_sorted_and_deterministic as (_ & H & _).
  apply H.
  - apply Permutation_sym.
    apply (Permutation_cons_append
             [("/v/b.mp4", true, "Corruption detected");
              ("/v/c.mp4", false, "Healthy")]
             ("/v/a.mp4", true, "Timeout (5s)")).
  - apply (bool_decide_unpack (NoDup _)). by vm_compute.
Defined.

(** C6 as stated fails twice.  The order is not that of the path texts:
    [/v/a/x.mp4] comes before [/v/a-b.mp4], though as a text it is the
    greater one.  And two verdicts for the same path come out in the
    order they came in, so a permutation of the input changes the
    output. *)
Lemma aggregation_counterexample :
  (finalize [("/v/a-b.mp4", true, "Corruption detected");
             ("/v/a/x.mp4", true, "Corruption detected")]
   = [("/v/a/x.mp4", "Corruption detected");
      ("/v/a-b.mp4", "Corruption detected")] /\
   str_leb "/v/a/x.mp4" "/v/a-b.mp4" = false) /\
  ([("/v/a.mp4", true, "Corruption detected"); ("/v/a.mp4", true, "Timeout (5s)")]
   ≡ₚ [("/v/a.mp4", true, "Timeout (5s)"); ("/v/a.mp4", true, "Corruption detected")] /\
   finalize [("/v/a.mp4", true, "Corruption detected");
             ("/v/a.mp4", true, "Timeout (5s)")]
   <> finalize [("/v/a.mp4", true, "Timeout (5s)");
                ("/v/a.mp4", true, "Corruption detected")]).
Proof.
  split; [split; by vm_compute|].
  split; [apply Permutation_swap|by vm_compute].
Qed.

End AggregationClaims.

(** * Further properties of the per-file analysis *)

Module WorkerExtraFacts.
Import Str PathLib VChecker WorkerFacts.

Lemma length_append s t :
  String.length (s +:+ t) = String.length s + String.length t.
Proof.
  induction s as [|c s IH]; [done|].
  change (S (String.length (s +:+ t)) = S (String.length s + String.length t)).
  by rewrite IH.
Qed.

Lemma append_inj_r s1 s2 t : s1 +:+ t = s2 +:+ t -> s1 = s2.
Proof.
  revert s2. induction s1 as [|c s1 IH]; intros [|d s2] H.
  - done.
  - apply (f_equal String.length) in H.
    change (String.length t = S (String.length (s2 +:+ t))) in H.
    rewrite length_append in H. lia.
  - apply (f_equal String.length) in H.
    change (S (String.length (s1 +:+ t)) = String.length t) in H.
    rewrite length_append in H. lia.
  - change (String c (s1 +:+ t) = String d (s2 +:+ t)) in H.
    injection H as -> H. f_equal. by apply IH.
Qed.

(** The reason of a timeout tells the timeout. *)
Lemma timeout_reason_inj T1 T2 :
  timeout_reason T1 = timeout_reason T2 -> T1 = T2.
Proof.
  unfold timeout_reason. intros H.
  apply (inj (String.append _)) in H. apply append_inj_r in H.
  by apply (inj pretty) in H.
Qed.

Ltac absurd_member :=
  match goal with
  | H : bool_decide (?p ∈ {[?p]} ∪ _) = false |- _ =>
      apply bool_decide_eq_false in H; destruct H; set_solver
  end.

(** A call leaves every file as it was, but for its staged copy. *)
Lemma check_video_corruption_files T env p use_cache tmp w q :
  (use_cache = true -> q <> staged_name env p tmp) ->
  files (check_video_corruption T env p use_cache tmp w).2 !! q = files w !! q.
Proof.
  intros Hq. destruct w as [stop reg fs sp tm fu lg pr].
  unfold staged_name in Hq. unfold_worker.
  destruct use_cache; [specialize (Hq eq_refl)|clear Hq];
    simpl; unfold_worker; worker_cases; simpl;
    rewrite ?lookup_delete_ne, ?lookup_insert_ne by done; done.
Qed.

End WorkerExtraFacts.

Section WorkerExtras.
Import Str PathLib VChecker WorkerFacts WorkerExtraFacts Terms Scenario.

(** X1.  A call that comes to an end has started at most one verifier
    process: either it started none and left the registry as it was, or
    it started exactly one, on the file it analyses (the staged copy when
    staging is on), and that process is no longer registered. *)
Theorem call_spawns_once_and_deregisters T env p use_cache tmp w r w' :
  check_video_corruption T env p use_cache tmp w = (r, w') ->
  r <> Hang ->
  (spawned w' = spawned w /\ ACTIVE_PROCESSES w' = ACTIVE_PROCESSES w) \/
  (exists proc,
     Popen_outcome env = inl proc /\
     spawned w' = spawned w ++
                  [(proc, command_for (analysed_path env p use_cache tmp))] /\
     ACTIVE_PROCESSES w' = ACTIVE_PROCESSES w ∖ {[proc]}).
Proof.
  intros H Hr. destruct w as [stop reg fs sp tm fu lg pr].
  unfold analysed_path, staged_name. revert H. unfold_worker.
  destruct use_cache; simpl; unfold_worker; worker_cases;
    intros H; simplify_eq; simpl; try done; try absurd_member;
    try (by left); right; eexists; (split; [done|]); (split; [done|]);
    set_solver.
Qed.

Lemma call_spawns_once_and_deregisters_witness :
  let out := check_video_corruption (Some 5%Z) (env_exit 1 1) "/v/a.mp4" true
               "/tmp/t" w_busy in
  (spawned out.2 = spawned w_busy /\
   ACTIVE_PROCESSES out.2 = ACTIVE_PROCESSES w_busy) \/
  (exists proc,
     Popen_outcome (env_exit 1 1) = inl proc /\
     spawned out.2
     = spawned w_busy ++
       [(proc, command_for (analysed_path (env_exit 1 1) "/v/a.mp4" true
                              "/tmp/t"))] /\
     ACTIVE_PROCESSES out.2 = ACTIVE_PROCESSES w_busy ∖ {[proc]}).
Proof.
  exact (call_spawns_once_and_deregisters (Some 5%Z) (env_exit 1 1)
           "/v/a.mp4" true "/tmp/t" w_busy _ _ (surjective_pairing _)
           ltac:(by vm_compute)).
Defined.

(** X2.  The reason of a verdict tells what happened first while the
    verifier was polled: [Healthy] only after an exit with status 0,
    [Corruption detected] only after an exit with another status, a
    timeout reason only when that timeout is configured, elapsed first
    and the process could be terminated, and [Cancelled] only with the
    stop flag set; the path is always that of the call. *)
Theorem verdict_reflects_first_event T env p use_cache tmp w q c reason w' :
  check_video_corruption T env p use_cache tmp w = (Ok (q, c, reason), w') ->
  let first := first_event T env (STOP_EVENT w) (ticks env) in
  q = p /\
  (reason = "Healthy" ->
     c = false /\ is_Some (process_var env) /\ first = Exited 0) /\
  (reason = "Corruption detected" ->
     c = true /\ is_Some (process_var env) /\
     exists rc, first = Exited rc /\ rc <> 0%Z) /\
  (forall T', reason = timeout_reason T' ->
     c = true /\ is_Some (process_var env) /\ T = Some T' /\
     first = TimedOut T' /\
     terminate_fault env = None /\ wait_fault env = None) /\
  (reason = "Cancelled" -> c = false /\ STOP_EVENT w' = true).
Proof.
  intros H first. subst first. destruct w as [stop reg fs sp tm fu lg pr].
  revert H. unfold process_var. unfold_worker.
  destruct use_cache; simpl; unfold_worker; worker_cases;
    intros H; simplify_eq; simpl;
    (split; [done|]);
    repeat match goal with
      | |- _ /\ _ => split
      | |- forall _, _ => intro
      | H : _ = _ |- _ =>
          unfold timeout_reason in H; rewrite ?append_String in H;
          discriminate H
      | H : timeout_reason _ = timeout_reason _ |- _ =>
          apply timeout_reason_inj in H; subst
      | H : (_ =? 0)%Z = true |- _ => apply Z.eqb_eq in H; subst
      | H : (_ =? 0)%Z = false |- _ => apply Z.eqb_neq in H
      end;
    try done; eauto;
    by match goal with
       | H : first_event _ _ _ _ = TimedOut _ |- _ =>
           apply first_event_TimedOut in H
       end.
Qed.

Lemma verdict_reflects_first_event_witness :
  first_event (Some 2%Z) (env_exit 1 0) false quiet_ticks = TimedOut 2 /\
  terminate_fault (env_exit 1 0) = None.
Proof.
  destruct (verdict_reflects_first_event (Some 2%Z) (env_exit 1 0) "/v/a.mp4"
              true "/tmp/t" w_videos "/v/a.mp4" true "Timeout (2s)"
              (check_video_corruption (Some 2%Z) (env_exit 1 0) "/v/a.mp4"
                 true "/tmp/t" w_videos).2 ltac:(by vm_compute))
    as (_ & _ & _ & H & _).
  destruct (H 2%Z ltac:(by vm_compute)) as (_ & _ & _ & H1 & H2 & _).
  split; [exact H1|exact H2].
Defined.

(** X3.  When staging and the deletion of the staged copy succeed and
    the verifier is started, a stop flag observed first while polling
    makes the call return [Cancelled] (not corrupted), with the flag
    set, the process sent a termination unless that itself fails, and
    the process no longer registered. *)
Theorem stop_observed_gives_cancelled T env p use_cache tmp w proc :
  staging_succeeds use_cache env p w ->
  deletion_succeeds use_cache env ->
  Popen_outcome env = inl proc ->
  first_event T env (STOP_EVENT w) (ticks env) = StopSeen ->
  let out := check_video_corruption T env p use_cache tmp w in
  out.1 = Ok (p, false, "Cancelled") /\
  STOP_EVENT out.2 = true /\
  (terminate_fault env = None -> proc ∈ terminated out.2) /\
  proc ∉ ACTIVE_PROCESSES out.2.
Proof.
  intros Hst Hdel HP Hev out. subst out.
  destruct w as [stop reg fs sp tm fu lg pr]. simpl in Hev.
  destruct use_cache.
  - destruct Hst as [?|[[c Hc] Hf]]; [done|]. simpl in Hc.
    destruct Hdel as [?|Hdel]; [done|].
    unfold_worker. simpl. rewrite Hc, Hf, HP, Hdel. simpl.
    rewrite poll_loop_spec. simpl. rewrite Hev.
    unfold terminate_wait, fault, bind, ret, raise.
    worker_cases; try absurd_lookup; try absurd_member;
      repeat split; try done; set_solver.
  - unfold_worker. simpl. rewrite HP. simpl.
    rewrite poll_loop_spec. simpl. rewrite Hev.
    unfold terminate_wait, fault, bind, ret, raise.
    worker_cases; try absurd_member; repeat split; try done; set_solver.
Qed.

Lemma stop_observed_gives_cancelled_witness :
  let out := check_video_corruption None (env_cancel 1) "/v/a.mp4" false
               "/tmp/t" w_videos in
  out.1 = Ok ("/v/a.mp4", false, "Cancelled") /\
  STOP_EVENT out.2 = true /\
  (terminate_fault (env_cancel 1) = None -> 1%positive ∈ terminated out.2) /\
  1%positive ∉ ACTIVE_PROCESSES out.2.
Proof.
  exact (stop_observed_gives_cancelled None (env_cancel 1) "/v/a.mp4" false
           "/tmp/t" w_videos 1%positive (or_introl eq_refl)
           (or_introl eq_refl) eq_refl eq_refl).
Defined.

(** X4.  A call sends a termination to no process but its own, at most
    once, and only when the stop flag is set at its end or the
    configured timeout was the first thing to happen. *)
Theorem terminate_only_on_stop_or_timeout T env p use_cache tmp w r w' :
  check_video_corruption T env p use_cache tmp w = (r, w') ->
  terminated w' = terminated w \/
  (exists proc,
     Popen_outcome env = inl proc /\
     terminated w' = terminated w ++ [proc] /\
     (STOP_EVENT w' = true \/
      exists T', T = Some T' /\
                 first_event T env (STOP_EVENT w) (ticks env) = TimedOut T')).
Proof.
  intros H. destruct w as [stop reg fs sp tm fu lg pr].
  revert H. unfold_worker.
  destruct use_cache; simpl; unfold_worker; worker_cases;
    intros H; simplify_eq; simpl; try (by left);
    right; eexists; (split; [done|]); (split; [done|]);
    try (by left); right;
    match goal with
    | H : first_event _ _ _ _ = TimedOut ?T0 |- _ =>
        exists T0; split; [by apply first_event_TimedOut in H|done]
    end.
Qed.

Lemma terminate_only_on_stop_or_timeout_witness :
  let out := check_video_corruption (Some 2%Z) (env_exit 1 0) "/v/a.mp4"
               false "/tmp/t" w_videos in
  terminated out.2 = terminated w_videos \/
  (exists proc,
     Popen_outcome (env_exit 1 0) = inl proc /\
     terminated out.2 = terminated w_videos ++ [proc] /\
     (STOP_EVENT out.2 = true \/
      exists T', Some 2%Z = Some T' /\
                 first_event (Some 2%Z) (env_exit 1 0) (STOP_EVENT w_videos)
                   (ticks (env_exit 1 0)) = TimedOut T')).
Proof.
  exact (terminate_only_on_stop_or_timeout (Some 2%Z) (env_exit 1 0)
           "/v/a.mp4" false "/tmp/t" w_videos _ _ (surjective_pairing _)).
Defined.

End WorkerExtras.

(** * Further properties of the pool and of the bulk cleanup *)

Module PoolExtraFacts.
Import Str PathLib VChecker WorkerFacts WorkerExtraFacts PoolFacts Terms.

Lemma terminate_each_terminated cenv ps w :
  terminated (terminate_each cenv ps w).2
  = terminated w ++ filter (fun p => c_terminate_fault cenv p = None) ps.
Proof.
  revert w. induction ps as [|p ps IH]; intros w; simpl.
  { by rewrite app_nil_r. }
  rewrite filter_cons.
  unfold bind at 1, try_except, terminate_wait, fault, bind, ret, raise.
  destruct (c_terminate_fault cenv p) as [e|] eqn:Ht; simpl.
  - apply IH.
  - destruct (c_wait_fault cenv p); simpl; rewrite IH; simpl;
      by rewrite <- app_assoc.
Qed.

(** A verdict stored in a future is about the file of that future. *)
Lemma produced_verdict T penv video_files use_cache j v :
  produced_by_call T penv video_files use_cache (j, Ok v) ->
  video_files !! j = Some v.1.1 /\ verdict_shape v.1.1 v.
Proof.
  intros (file & wa & wb & Hfile & Hcall). simpl in *.
  apply check_video_corruption_shape in Hcall.
  pose proof (verdict_shape_path _ _ Hcall) as Hp. by rewrite Hp.
Qed.


Lemma collect_oks_cons j r new :
  collect (oks ((j, r) :: new))
  = match r with
    | Ok (path, true, reason) => (path, reason) :: collect (oks new)
    | _ => collect (oks new)
    end.
Proof. by destruct r as [[[path []] reason]| |]. Qed.

Lemma collect_oks_paths T penv video_files use_cache new path :
  Forall (produced_by_call T penv video_files use_cache) new ->
  path ∈ (collect (oks new)).*1 ->
  exists j, j ∈ new.*1 /\ video_files !! j = Some path.
Proof.
  intros Hprod Hin.
  apply list_elem_of_fmap in Hin as ([p reason] & -> & Hin). simpl.
  apply elem_of_collect, elem_of_oks in Hin as [j Hj].
  rewrite Forall_forall in Hprod.
  destruct (produced_verdict _ _ _ _ _ _ (Hprod _ Hj)) as [Hfile _].
  exists j. split; [|done].
  apply list_elem_of_fmap. by exists (j, Ok (p, true, reason)).
Qed.

(** The paths of a result are submitted files. *)
Lemma run_analysis_paths T penv video_files use_cache workers w result w' :
  run_analysis T penv video_files use_cache workers w = (Ok result, w') ->
  forall p, p ∈ result.*1 -> p ∈ video_files.
Proof.
  intros Hrun p Hin.
  destruct (Z.leb_spec workers 0) as [Hle|Hlt].
  { by rewrite run_analysis_no_worker in Hrun. }
  apply run_analysis_spec in Hrun; [|done].
  destruct Hrun as [Hset Hunset].
  destruct (STOP_EVENT w') eqn:Hstop.
  { destruct (Hset eq_refl) as [-> _]. by apply elem_of_nil in Hin. }
  destruct (Hunset eq_refl) as (new & _ & Hprod & _ & -> & _).
  apply list_elem_of_fmap in Hin as ([p' reason] & -> & Hin).
  apply elem_of_finalize, elem_of_oks in Hin as [j Hj].
  rewrite Forall_forall in Hprod.
  destruct (produced_verdict _ _ _ _ _ _ (Hprod _ Hj)) as [Hfile _].
  simpl in *. by eapply list_elem_of_lookup_2.
Qed.

Lemma harvest_files T penv video_files use_cache order i acc w q :
  ~ staged_copy penv video_files use_cache q ->
  files (harvest T penv video_files use_cache order i acc w).2 !! q
  = files w !! q.
Proof.
  intros Hq. revert i acc w.
  induction order as [|j rest IH]; intros i acc w; simpl; [done|].
  destruct (video_files !! j) as [file|] eqn:Hj; [|apply IH].
  unfold bind at 1. unfold complete_future.
  pose proof (check_video_corruption_files T (task_env penv j) file
                use_cache (temp_dir penv) w q) as Hcall.
  destruct (check_video_corruption _ _ _ _ _ w) as [res w1].
  simpl in Hcall. rewrite <- Hcall.
  2:{ intros Hc Heq. apply Hq. split; [done|]. by exists j, file. }
  destruct res as [v|e|]; [| |done].
  - unfold bind at 1, listener at 1. unfold bind at 1, is_set at 1. simpl.
    destruct (STOP_EVENT w1 || quit_before_check penv i); [done|].
    unfold bind at 1, try_except, future_result, bind at 1, ret at 1.
    destruct v as [[path is_corrupted] reason].
    unfold ret at 1. unfold bind at 1, progress_update at 1.
    by rewrite IH.
  - unfold bind at 1, listener at 1. unfold bind at 1, is_set at 1. simpl.
    destruct (STOP_EVENT w1 || quit_before_check penv i); [done|].
    unfold bind at 1, try_except, future_result, bind at 1, raise at 1.
    unfold bind at 1, logging at 1, ret at 1.
    unfold bind at 1, progress_update at 1. by rewrite IH.
Qed.

(** The analysis leaves every file as it was, but for staged copies. *)
Lemma run_analysis_files T penv video_files use_cache workers w q :
  ~ staged_copy penv video_files use_cache q ->
  files (run_analysis T penv video_files use_cache workers w).2 !! q
  = files w !! q.
Proof.
  intros Hq. unfold run_analysis.
  destruct (workers <=? 0)%Z; [done|].
  unfold bind at 1.
  pose proof (harvest_files T penv video_files use_cache (completion penv)
                0 [] w q Hq) as Hh.
  destruct (harvest _ _ _ _ _ _ _ w) as [[cf|e|] w0]; [|done..].
  simpl in Hh. rewrite <- Hh.
  unfold bind at 1, listener at 1. unfold bind at 1, is_set at 1. simpl.
  destruct (STOP_EVENT w0 || quit_before_final penv); [|done].
  unfold bind at 1.
  destruct (cleanup_active_processes_spec (cleanup_env penv)
              (set_STOP_EVENT true w0)) as (w2 & -> & _ & _ & Hf & _).
  simpl. by rewrite Hf.
Qed.

End PoolExtraFacts.

Section PoolExtras.
Import Str PathLib VChecker WorkerFacts PoolFacts PoolExtraFacts Terms Scenario Cases.

(** X5.  The bulk cleanup never fails; it empties the registry and
    delivers a termination, in the order of the registry, to exactly the
    registered processes whose [terminate()] does not raise; a second
    cleanup then does nothing at all. *)
Theorem cleanup_terminates_the_registered cenv w :
  let out := cleanup_active_processes cenv w in
  out.1 = Ok tt /\
  ACTIVE_PROCESSES out.2 = ∅ /\
  terminated out.2
  = terminated w ++ filter (fun p => c_terminate_fault cenv p = None)
                           (elements (ACTIVE_PROCESSES w)) /\
  (forall cenv', cleanup_active_processes cenv' out.2 = (Ok tt, out.2)).
Proof.
  simpl.
  destruct (cleanup_active_processes_spec cenv w) as (w' & Hc & Hreg & _).
  rewrite Hc. simpl. split; [done|]. split; [done|]. split.
  - revert Hc. unfold cleanup_active_processes.
    destruct (elements (ACTIVE_PROCESSES w)) as [|p ps] eqn:He.
    + intros [= <-]. by rewrite filter_nil, app_nil_r.
    + unfold bind.
      pose proof (terminate_each_terminated cenv (p :: ps) w) as Ht.
      destruct (terminate_each_spec cenv (p :: ps) w) as (w1 & Hw1 & _).
      rewrite Hw1 in Ht |- *. simpl in Ht. intros [= <-]. simpl. exact Ht.
  - intros cenv'. unfold cleanup_active_processes. rewrite Hreg.
    by rewrite elements_empty.
Qed.

(** X6.  Every entry of the result of [run_analysis] names one of the
    files it was given, with one of the four reasons of a corrupted
    verdict: detected corruption, a timeout, a failed local copy or an
    unexpected error (never [Healthy] nor [Cancelled]). *)
Theorem reported_entries_are_submitted_files
    T penv video_files use_cache workers w result w' :
  run_analysis T penv video_files use_cache workers w = (Ok result, w') ->
  forall path reason,
    (path, reason) ∈ result ->
    path ∈ video_files /\ corruption_reason reason.
Proof.
  intros Hrun path reason Hin.
  destruct (Z.leb_spec workers 0) as [Hle|Hlt].
  { by rewrite run_analysis_no_worker in Hrun. }
  apply run_analysis_spec in Hrun; [|done].
  destruct Hrun as [Hset Hunset].
  destruct (STOP_EVENT w') eqn:Hstop.
  { destruct (Hset eq_refl) as [-> _]. by apply elem_of_nil in Hin. }
  destruct (Hunset eq_refl) as (new & _ & Hprod & _ & -> & _).
  apply elem_of_finalize, elem_of_oks in Hin as [j Hj].
  rewrite Forall_forall in Hprod.
  destruct (produced_verdict _ _ _ _ _ _ (Hprod _ Hj)) as [Hfile Hshape].
  simpl in *. split; [by eapply list_elem_of_lookup_2|].
  unfold corruption_reason.
  destruct Hshape as [H|[H|[[T' H]|[H|[[e H]|[e H]]]]]]; simplify_eq; eauto.
Qed.

Lemma reported_entries_are_submitted_files_witness :
  "/v/b.mp4" ∈ ["/v/a.mp4"; "/v/b.mp4"] /\
  corruption_reason "Corruption detected".
Proof.
  apply (reported_entries_are_submitted_files None penv_quiet
           ["/v/a.mp4"; "/v/b.mp4"] false 2 w_videos
           [("/v/a.mp4", "Corruption detected");
            ("/v/b.mp4", "Corruption detected")]
           (run_analysis None penv_quiet ["/v/a.mp4"; "/v/b.mp4"] false 2
              w_videos).2).
  - by vm_compute.
  - right. left.
Defined.

(** X7.  When the files given are pairwise distinct and no future is
    harvested twice, no path occurs twice in the result. *)
Theorem no_file_is_reported_twice
    T penv video_files use_cache workers w result w' :
  NoDup video_files ->
  NoDup (completion penv) ->
  run_analysis T penv video_files use_cache workers w = (Ok result, w') ->
  NoDup result.*1.
Proof.
  intros Hfiles Horder Hrun.
  destruct (Z.leb_spec workers 0) as [Hle|Hlt].
  { by rewrite run_analysis_no_worker in Hrun. }
  apply run_analysis_spec in Hrun; [|done].
  destruct Hrun as [Hset Hunset].
  destruct (STOP_EVENT w') eqn:Hstop.
  { destruct (Hset eq_refl) as [-> _]. constructor. }
  destruct (Hunset eq_refl) as (new & _ & Hprod & _ & -> & Hnew & _).
  unfold finalize. rewrite sorted_Permutation.
  assert (NoDup new.*1) as Hnd.
  { rewrite Hnew. by apply NoDup_filter. }
  clear Hnew Hunset Hset. induction new as [|[j r] new IH]; [constructor|].
  apply Forall_cons in Hprod as [Hj Hprod].
  rewrite fmap_cons in Hnd. apply NoDup_cons in Hnd as [Hjn Hnd].
  rewrite collect_oks_cons.
  destruct r as [[[path []] reason]|e|]; try by apply IH.
  rewrite fmap_cons. apply NoDup_cons. split; [|by apply IH].
  intros Hin. simpl in *.
  destruct (collect_oks_paths _ _ _ _ _ _ Hprod Hin) as (j' & Hj' & Hfile').
  destruct (produced_verdict _ _ _ _ _ _ Hj) as [Hfile _]. simpl in Hfile.
  assert (j = j') as -> by exact (NoDup_lookup _ _ _ _ Hfiles Hfile Hfile').
  done.
Qed.

Lemma no_file_is_reported_twice_witness :
  NoDup [("/v/a.mp4", "Corruption detected");
         ("/v/b.mp4", "Corruption detected")].*1.
Proof.
  apply (no_file_is_reported_twice None penv_quiet
           ["/v/a.mp4"; "/v/b.mp4"] false 2 w_videos _
           (run_analysis None penv_quiet ["/v/a.mp4"; "/v/b.mp4"] false 2
              w_videos).2).
  - apply (bool_decide_unpack (NoDup _)). by vm_compute.
  - apply (bool_decide_unpack (NoDup _)). by vm_compute.
  - by vm_compute.
Defined.



(** X9.  [run_analysis] creates, changes or deletes no file other than
    the staged copies of the files it was given; without staging it
    leaves the files as they were.  This holds whatever the outcome, an
    exception or an endless wait included.  (The log file is kept apart
    from the files, here and below.) *)
Theorem analysis_changes_only_staged_copies
    T penv video_files use_cache workers w :
  let out := run_analysis T penv video_files use_cache workers w in
  (forall q, ~ staged_copy penv video_files use_cache q ->
             files out.2 !! q = files w !! q) /\
  (use_cache = false -> files out.2 = files w).
Proof.
  simpl. split.
  - intros q Hq. by apply run_analysis_files.
  - intros Hc. apply map_eq. intros q. apply run_analysis_files.
    intros [? _]. congruence.
Qed.

End PoolExtras.

(** * Further properties of the reports *)

Section ReportExtras.
Import Str PathLib VChecker StrFacts ReportFacts Terms Scenario Cases.

(** X10.  [load_report] only reads: whatever its outcome, it changes
    nothing but the log; and when there is no file at the path of the
    report, it returns the empty list and logs one error record. *)
Theorem load_report_reads_only io_fault report_file w :
  let out := load_report io_fault report_file w in
  same_but_log w out.2 /\
  (files w !! report_file = None ->
   out.1 = Ok [] /\
   log out.2
   = log w ++ [(ERROR, "Report file '" +:+ report_file +:+ "' not found.")]).
Proof.
  simpl. unfold load_report.
  destruct (files w !! report_file) as [content|] eqn:Hf.
  - split; [|done]. destruct io_fault as [e|].
    + by unfold try_except, fault, bind, raise, logging, ret.
    + pose proof (load_report_spec report_file content w Hf) as Hspec.
      unfold load_report in Hspec. rewrite Hf in Hspec. by rewrite Hspec.
  - by unfold bind, logging, ret.
Qed.

(** X12.  [save_report] touches no file other than the report, nor the
    stop flag or the processes.  An I/O error is answered by one error
    record in the log, and the function returns; when it returns
    without such an error, the report file holds the text of the
    entries and one information record is logged. *)
Theorem save_report_error_behaviour io_fault report_file entries w :
  let out := save_report io_fault report_file entries w in
  (forall q, q <> report_file -> files out.2 !! q = files w !! q) /\
  STOP_EVENT out.2 = STOP_EVENT w /\ spawned out.2 = spawned w /\
  terminated out.2 = terminated w /\
  (forall e, io_fault = Some e ->
     out.1 = Ok tt /\
     log out.2 = log w ++ [(ERROR, "Could not save report: " +:+ e)]) /\
  (io_fault = None -> out.1 = Ok tt ->
     files out.2 !! report_file = Some (report_text entries) /\
     exists msg, log out.2 = log w ++ [(INFO, msg)]).
Proof.
  simpl. unfold save_report, try_except, fault, bind, raise, logging, ret.
  destruct io_fault as [e|]; simpl.
  - split; [done|]. split; [done|]. split; [done|]. split; [done|].
    split; [|done]. by intros ? [= ->].
  - split.
    { intros q Hq. by rewrite lookup_insert_ne. }
    split; [done|]. split; [done|]. split; [done|]. split; [done|].
    intros _ _. split; [apply lookup_insert_eq|eauto].
Qed.

End ReportExtras.

(** * Properties of the interactive parts *)

Module SelectionFacts.
Import Str PathLib VChecker PyLib Interactive Terms.

Lemma elem_of_range start stop i :
  i ∈ range start stop <-> (start <= i < stop)%Z.
Proof.
  unfold range. rewrite list_elem_of_fmap. split.
  - intros (k & -> & Hk). apply elem_of_seq in Hk. lia.
  - intros H. exists (Z.to_nat (i - start)). split; [lia|].
    apply elem_of_seq. lia.
Qed.

Lemma elem_of_file_with_id corrupted_files i p :
  p ∈ file_with_id corrupted_files i <->
  (1 <= i)%Z /\
  exists reason, corrupted_files !! Z.to_nat (i - 1) = Some (p, reason).
Proof.
  unfold file_with_id.
  destruct (Z.leb_spec 1 i) as [H1|H1]; simpl.
  2:{ rewrite elem_of_nil. split; [done|]. intros [? _]. lia. }
  destruct (Z.leb_spec i (Z.of_nat (length corrupted_files))) as [H2|H2].
  - destruct (corrupted_files !! Z.to_nat (i - 1)) as [[q reason]|] eqn:Hl.
    + rewrite list_elem_of_singleton. simpl. split.
      * intros ->. eauto.
      * intros [_ [r [= -> _]]]. done.
    + rewrite elem_of_nil. split; [done|]. intros [_ [? ?]]. done.
  - rewrite elem_of_nil. split; [done|]. intros [_ [r Hr]].
    apply lookup_lt_Some in Hr. lia.
Qed.

(** The files a well-formed part selects. *)
Lemma select_part_covers corrupted_files part chosen p :
  select_part corrupted_files part = Some chosen ->
  p ∈ chosen <->
  exists i reason, covers part i /\ (1 <= i)%Z /\
    corrupted_files !! Z.to_nat (i - 1) = Some (p, reason).
Proof.
  unfold select_part, covers. destruct (contains "-" part).
  - destruct (split "-" part) as [|a [|b [|c l]]]; try done.
    destruct (int_of_string a) as [start|] eqn:Ha; [|done].
    destruct (int_of_string b) as [end_|] eqn:Hb; [|done].
    intros [= <-]. rewrite list_elem_of_bind. split.
    + intros (i & Hp & Hi). apply elem_of_range in Hi.
      apply elem_of_file_with_id in Hp as [H1 [reason Hr]].
      exists i, reason. split; [|done].
      exists a, b, start, end_. repeat split; try done; lia.
    + intros (i & reason & (a' & b' & s' & e' & [= <- <-] & Hs & He & Hi)
                & H1 & Hr).
      simplify_eq. exists i. split.
      * apply elem_of_file_with_id. eauto.
      * apply elem_of_range. lia.
  - destruct (int_of_string part) as [i|]; [|done].
    intros [= <-]. rewrite elem_of_file_with_id. split.
    + intros [H1 [reason Hr]]. eauto.
    + intros (i' & reason & [= <-] & H1 & Hr). eauto.
Qed.

Lemma select_parts_None corrupted_files parts acc :
  select_parts corrupted_files parts acc = None <->
  Exists (fun part => select_part corrupted_files part = None) parts.
Proof.
  revert acc. induction parts as [|part rest IH]; intros acc; simpl.
  { rewrite Exists_nil. done. }
  rewrite Exists_cons.
  destruct (select_part corrupted_files part) as [chosen|] eqn:Hp.
  - rewrite IH. split; [by right|]. by intros [?|?].
  - split; [by left|done].
Qed.

Lemma select_parts_Some corrupted_files parts acc selected p :
  select_parts corrupted_files parts acc = Some selected ->
  p ∈ selected <->
  p ∈ acc \/
  exists part chosen, part ∈ parts /\
    select_part corrupted_files part = Some chosen /\ p ∈ chosen.
Proof.
  revert acc. induction parts as [|part rest IH]; intros acc; simpl.
  { intros [= <-]. split; [by left|]. intros [?|(? & ? & H & _)]; [done|].
    by apply elem_of_nil in H. }
  destruct (select_part corrupted_files part) as [chosen|] eqn:Hp; [|done].
  intros H. rewrite (IH _ H). rewrite elem_of_union, elem_of_list_to_set.
  split.
  - intros [[?|?]|(part' & chosen' & Hin & Hs & Hc)].
    + by left.
    + right. exists part, chosen. split; [left|done].
    + right. exists part', chosen'. split; [by right|done].
  - intros [?|(part' & chosen' & Hin & Hs & Hc)]; [by left; left|].
    apply elem_of_cons in Hin as [->|Hin].
    + left; right. congruence.
    + right. eauto.
Qed.

(** The selection never fails and proposes reported files only. *)
Lemma select_safe answer corrupted_files w :
  exists selected w',
    select_files_for_deletion answer corrupted_files w = (Ok selected, w') /\
    same_but_log w w' /\
    forall p, p ∈ selected -> p ∈ corrupted_files.*1.
Proof.
  unfold select_files_for_deletion.
  destruct answer as [s|].
  2:{ exists [], w. repeat split; try done.
      intros p H. by apply elem_of_nil in H. }
  destruct (bool_decide (lower s ∈ ["none"; "n"])).
  { exists [], w. repeat split; try done.
    intros p H. by apply elem_of_nil in H. }
  destruct (bool_decide (lower s ∈ ["all"; "a"; "yes"; "y"])).
  { exists (corrupted_files.*1), w. repeat split; done. }
  destruct (select_parts corrupted_files _ ∅) as [selected|] eqn:Hs.
  - exists (elements selected), w. repeat split; try done.
    intros p Hp. apply elem_of_elements in Hp.
    apply (select_parts_Some _ _ _ _ p) in Hs. apply Hs in Hp.
    destruct Hp as [Hp|(part & chosen & _ & Hpart & Hp)]; [set_solver|].
    apply (select_part_covers _ _ _ p) in Hpart. apply Hpart in Hp.
    destruct Hp as (i & reason & _ & _ & Hl).
    apply list_elem_of_fmap. exists (p, reason). split; [done|].
    by eapply list_elem_of_lookup_2.
  - eexists [], _. unfold bind, logging, ret. simpl. repeat split; try done.
    intros p H. by apply elem_of_nil in H.
Qed.

End SelectionFacts.

Section SelectionExtras.
Import Str PathLib VChecker PyLib Interactive Terms SelectionFacts Scenario Cases.

(** X13.  Whatever is typed at the prompt, [select_files_for_deletion]
    returns normally, changes nothing but the log, and every file it
    returns is one of the reported files; if the reported paths are
    pairwise distinct, so are the files returned. *)
Theorem selection_is_among_the_reported answer corrupted_files w :
  let out := select_files_for_deletion answer corrupted_files w in
  exists selected,
    out.1 = Ok selected /\
    same_but_log w out.2 /\
    (forall p, p ∈ selected -> p ∈ corrupted_files.*1) /\
    (NoDup corrupted_files.*1 -> NoDup selected).
Proof.
  cbv zeta.
  destruct (select_safe answer corrupted_files w)
    as (selected & w' & Hsel & Hsame & Hin).
  rewrite Hsel. exists selected. split; [done|]. split; [done|].
  split; [done|]. intros Hnd. revert Hsel. unfold select_files_for_deletion.
  destruct answer as [s|]; [|intros [= <- _]; constructor].
  destruct (bool_decide (lower s ∈ ["none"; "n"]));
    [intros [= <- _]; constructor|].
  destruct (bool_decide (lower s ∈ ["all"; "a"; "yes"; "y"]));
    [by intros [= <- _]|].
  destruct (select_parts corrupted_files _ ∅) as [chosen|].
  - intros [= <- _]. apply NoDup_elements.
  - unfold bind, logging, ret. intros [= <- _]. constructor.
Qed.

(** X14.  The selection is all or nothing: when the choice is none of
    the key words and one of its comma-separated parts is malformed,
    nothing is selected, whatever the other parts say, and exactly one
    error record is logged. *)
Theorem malformed_part_cancels_the_selection s corrupted_files part w :
  is_keyword s = false ->
  part ∈ parts_of s ->
  select_part corrupted_files part = None ->
  select_files_for_deletion (Typed s) corrupted_files w
  = (Ok [],
     set_log (log w ++
              [(ERROR,
                "Invalid input. Please enter numbers, ranges, 'all', or 'none'.")])
             w).
Proof.
  unfold is_keyword, parts_of. intros Hk Hin Hpart.
  apply bool_decide_eq_false in Hk.
  unfold select_files_for_deletion.
  rewrite bool_decide_eq_false_2 by set_solver.
  rewrite bool_decide_eq_false_2 by set_solver.
  assert (select_parts corrupted_files
            (split "," (remove_char " " (lower s))) ∅ = None) as ->.
  { apply select_parts_None, Exists_exists. eauto. }
  done.
Qed.

Lemma malformed_part_cancels_the_selection_witness :
  select_files_for_deletion (Typed "1, 2-x") three_entries w_videos
  = (Ok [],
     set_log (log w_videos ++
              [(ERROR,
                "Invalid input. Please enter numbers, ranges, 'all', or 'none'.")])
             w_videos).
Proof.
  apply (malformed_part_cancels_the_selection "1, 2-x" three_entries "2-x"
           w_videos).
  - by vm_compute.
  - apply (list_elem_of_lookup_2 _ 1). by vm_compute.
  - by vm_compute.
Defined.

(** X15.  When the choice is none of the key words and all its parts
    are well formed, the files selected are exactly the reported files
    whose identifier (position in the table, from 1) is designated by
    some part, a number or an inclusive range; identifiers out of range
    select nothing, and no file is selected twice.  The state is left
    as it was. *)
Theorem selection_by_identifiers s corrupted_files w :
  is_keyword s = false ->
  Forall (fun part => is_Some (select_part corrupted_files part))
         (parts_of s) ->
  exists selected,
    select_files_for_deletion (Typed s) corrupted_files w = (Ok selected, w) /\
    NoDup selected /\
    forall p,
      p ∈ selected <->
      exists part i reason,
        part ∈ parts_of s /\ covers part i /\ (1 <= i)%Z /\
        corrupted_files !! Z.to_nat (i - 1) = Some (p, reason).
Proof.
  unfold is_keyword, parts_of. intros Hk Hall.
  apply bool_decide_eq_false in Hk.
  unfold select_files_for_deletion.
  rewrite bool_decide_eq_false_2 by set_solver.
  rewrite bool_decide_eq_false_2 by set_solver.
  destruct (select_parts corrupted_files _ ∅) as [selected|] eqn:Hs.
  2:{ apply select_parts_None, Exists_exists in Hs as (part & Hin & Hn).
      rewrite Forall_forall in Hall. destruct (Hall _ Hin) as [? ?].
      congruence. }
  exists (elements selected). split; [done|]. split; [apply NoDup_elements|].
  intros p. rewrite elem_of_elements, (select_parts_Some _ _ _ _ p Hs).
  split.
  - intros [?|(part & chosen & Hin & Hpart & Hp)]; [set_solver|].
    apply (select_part_covers _ _ _ p) in Hpart. apply Hpart in Hp.
    destruct Hp as (i & reason & ?). exists part, i, reason. tauto.
  - intros (part & i & reason & Hin & Hc & H1 & Hl). right.
    rewrite Forall_forall in Hall. destruct (Hall _ Hin) as [chosen Hpart].
    exists part, chosen. split; [done|]. split; [done|].
    apply (select_part_covers _ _ _ p Hpart). eauto.
Qed.

Lemma selection_by_identifiers_witness :
  exists selected,
    select_files_for_deletion (Typed "3, 1-2,8") three_entries w_videos
    = (Ok selected, w_videos) /\
    NoDup selected /\
    forall p,
      p ∈ selected <->
      exists part i reason,
        part ∈ parts_of "3, 1-2,8" /\ covers part i /\ (1 <= i)%Z /\
        three_entries !! Z.to_nat (i - 1) = Some (p, reason).
Proof.
  apply (selection_by_identifiers "3, 1-2,8" three_entries w_videos).
  - by vm_compute.
  - apply (bool_decide_unpack (Forall _ _)). by vm_compute.
Defined.

End SelectionExtras.

Module DeletionFacts.
Import Str PathLib VChecker PyLib Interactive Terms.

(** Nothing is at or in a path that is not occupied. *)
Lemma occupied_false fs p q :
  occupied fs p = false -> at_or_inside p q = true -> fs !! q = None.
Proof.
  unfold occupied. intros Hocc Hq.
  apply bool_decide_eq_false in Hocc.
  destruct (fs !! q) as [c|] eqn:Hf; [|done].
  exfalso. apply Hocc. intros Hempty.
  assert (filter (fun kv : string * string => at_or_inside p kv.1 = true) fs
            !! q = Some c) as Hin.
  { by apply map_lookup_filter_Some. }
  rewrite Hempty in Hin. by rewrite lookup_empty in Hin.
Qed.

(** One move to the recycle bin: it touches nothing but the files, and
    of these only what is at or in the path; when the move meets no
    error, nothing is left there. *)
Lemma send2trash_spec denv p w :
  exists r w',
    send2trash denv p w = (r, w') /\
    (r = Ok tt \/ exists e, r = Raise e) /\
    log w' = log w /\ same_processes w w' /\
    (forall q, at_or_inside p q = false -> files w' !! q = files w !! q) /\
    (forall q, files w' !! q = files w !! q \/ files w' !! q = None) /\
    (trash_fault denv p = None ->
     forall q, at_or_inside p q = true -> files w' !! q = None).
Proof.
  unfold send2trash.
  destruct (occupied (files w) p) eqn:Hocc.
  - destruct (trash_fault denv p) as [[e moved]|] eqn:Ht.
    + eexists _, _. split; [done|]. split; [eauto|]. split; [done|].
      split; [done|]. simpl. split; [|split; [|done]].
      * intros q Hq.
        destruct (files w !! q) as [c|] eqn:Hf.
        -- apply map_lookup_filter_Some. split; [done|]. simpl.
           intros [? _]. congruence.
        -- apply map_lookup_filter_None. left. done.
      * intros q.
        destruct (filter _ (files w) !! q) as [c|] eqn:Hf; [|by right].
        left. apply map_lookup_filter_Some in Hf as [-> _]. done.
    + eexists _, _. split; [done|]. split; [eauto|]. split; [done|].
      split; [done|]. simpl. split; [|split].
      * intros q Hq.
        destruct (files w !! q) as [c|] eqn:Hf.
        -- by apply map_lookup_filter_Some.
        -- apply map_lookup_filter_None. by left.
      * intros q.
        destruct (filter _ (files w) !! q) as [c|] eqn:Hf; [|by right].
        left. apply map_lookup_filter_Some in Hf as [-> _]. done.
      * intros _ q Hq. apply map_lookup_filter_None. right.
        intros c _. simpl. congruence.
  - destruct (not_found denv p) as [e|].
    + eexists _, _. split; [done|]. split; [eauto|]. split; [done|].
      split; [done|]. split; [done|]. split; [by left|].
      intros _ q Hq. by eapply occupied_false.
    + destruct (trash_fault denv p) as [[e moved]|] eqn:Ht.
      * eexists _, _. split; [done|]. split; [eauto|]. split; [done|].
        split; [done|]. simpl. split; [|split; [|done]].
        -- intros q Hq.
           destruct (files w !! q) as [c|] eqn:Hf.
           ++ apply map_lookup_filter_Some. split; [done|]. simpl.
              intros [? _]. congruence.
           ++ apply map_lookup_filter_None. left. done.
        -- intros q.
           destruct (filter _ (files w) !! q) as [c|] eqn:Hf; [|by right].
           left. apply map_lookup_filter_Some in Hf as [-> _]. done.
      * eexists _, _. split; [done|]. split; [eauto|]. split; [done|].
        split; [done|]. simpl. split; [|split].
        -- intros q Hq.
           destruct (files w !! q) as [c|] eqn:Hf.
           ++ by apply map_lookup_filter_Some.
           ++ apply map_lookup_filter_None. by left.
        -- intros q.
           destruct (filter _ (files w) !! q) as [c|] eqn:Hf; [|by right].
           left. apply map_lookup_filter_Some in Hf as [-> _]. done.
        -- intros _ q Hq. apply map_lookup_filter_None. right.
           intros c _. simpl. congruence.
Qed.

(** The deletion loop: what it returns, logs and does to the files. *)
Lemma delete_each_spec denv l k w :
  exists k' errs w',
    delete_each denv l k w = (Ok k', w') /\
    log w' = log w ++ errs /\
    Forall (fun r => r.1 = ERROR) errs /\
    k' + length errs = k + length l /\
    (forall q, (forall p, p ∈ l -> at_or_inside p q = false) ->
       files w' !! q = files w !! q) /\
    (forall q, files w' !! q = files w !! q \/ files w' !! q = None) /\
    (forall p q, p ∈ l -> trash_fault denv p = None ->
       at_or_inside p q = true -> files w' !! q = None) /\
    same_processes w w'.
Proof.
  revert k w. induction l as [|file rest IH]; intros k w; simpl.
  { exists k, [], w. unfold ret. rewrite app_nil_r.
    repeat split; try done; try lia; try (by left).
    intros p q Hp. by apply elem_of_nil in Hp. }
  unfold bind at 1, try_except, bind at 1.
  destruct (send2trash_spec denv file w)
    as (r & w1 & -> & Hr & Hlog1 & Hsame1 & Hout1 & Hle1 & Hgone1).
  destruct Hr as [->|[e ->]].
  - unfold ret at 1.
    destruct (IH (S k) w1)
      as (k' & errs & w' & -> & Hlog & Herr & Hk & Hout & Hle & Hgone & Hsame).
    exists k', errs, w'. split; [done|]. rewrite Hlog, Hlog1.
    split; [done|]. split; [done|]. split; [simpl; lia|].
    split; [|split; [|split]].
    + intros q Hq. rewrite Hout, Hout1; [done| |].
      * apply Hq. by left.
      * intros p Hp. apply Hq. by right.
    + intros q. destruct (Hle q) as [->| ->]; [apply Hle1|by right].
    + intros p q Hp Ht Hq. apply elem_of_cons in Hp as [->|Hp].
      * destruct (Hle q) as [->| ->]; [|done]. by apply Hgone1.
      * by eapply Hgone.
    + destruct Hsame1 as (? & ? & ? & ? & ? & ?).
      destruct Hsame as (? & ? & ? & ? & ? & ?).
      repeat split; congruence.
  - unfold bind at 1, logging at 1, ret at 1.
    match goal with |- context [delete_each denv rest ?k0 ?w0] =>
      destruct (IH k0 w0)
        as (k' & errs & w' & -> & Hlog & Herr & Hk & Hout & Hle & Hgone & Hsame)
    end.
    simpl in *. eexists k', (_ :: errs), w'. split; [done|].
    rewrite Hlog, Hlog1, <- app_assoc.
    split; [done|]. split; [by constructor|]. split; [simpl; lia|].
    split; [|split; [|split]].
    + intros q Hq. rewrite Hout, Hout1; [done| |].
      * apply Hq. by left.
      * intros p Hp. apply Hq. by right.
    + intros q. destruct (Hle q) as [->| ->]; [apply Hle1|by right].
    + intros p q Hp Ht Hq. apply elem_of_cons in Hp as [->|Hp].
      * destruct (Hle q) as [->| ->]; [|done]. by apply Hgone1.
      * by eapply Hgone.
    + destruct Hsame1 as (? & ? & ? & ? & ? & ?).
      destruct Hsame as (? & ? & ? & ? & ? & ?).
      repeat split; simpl in *; congruence.
Qed.

(** Whatever its outcome, the deletion changes only what is at or in a
    listed path, and such a file is then gone. *)
Lemma delete_files_frame denv l w r wf :
  delete_files denv l w = (r, wf) ->
  same_processes w wf /\
  forall q, files wf !! q = files w !! q \/
            (files wf !! q = None /\
             exists p, p ∈ l /\ at_or_inside p q = true).
Proof.
  unfold delete_files. destruct l as [|file rest].
  { unfold bind, logging, ret. intros [= <- <-]. split; [done|]. by left. }
  unfold bind at 1, ask.
  destruct (confirm_deletion denv) as [[]|e|]; cbn [negb];
    try (unfold bind, logging, ret; intros [= <- <-]; split; [done|];
         by left).
  unfold bind.
  destruct (delete_each_spec denv (file :: rest) 0 w)
    as (k' & errs & w' & -> & _ & _ & _ & Hout & Hle & _ & Hsame).
  unfold ret. intros [= <- <-]. split; [done|].
  intros q.
  destruct (decide (Exists (fun p => at_or_inside p q = true) (file :: rest)))
    as [Hex|Hex].
  - destruct (Hle q) as [?|?]; [by left|right]. split; [done|].
    apply Exists_exists in Hex. done.
  - left. apply Hout. intros p Hp.
    destruct (at_or_inside p q) eqn:E; [|done].
    exfalso. apply Hex, Exists_exists. eauto.
Qed.

(** A prompt that raises is not caught: the exception leaves
    [delete_files], and nothing has been deleted. *)
Lemma delete_files_closed_input :
  delete_files Cases.denv_closed ["/v/a.mp4"] Scenario.w_videos
  = (Raise "EOF when reading a line", Scenario.w_videos).
Proof. reflexivity. Qed.

End DeletionFacts.

Section DeletionExtras.
Import Str PathLib VChecker PyLib Interactive Terms DeletionFacts Scenario Cases.

(** X16.  Without the confirmation of the user (declined, or the prompt
    raises), or with nothing to delete, [delete_files] deletes nothing;
    declined or with nothing to delete, it logs one information record
    and returns.  In any case a file that is neither a listed path nor
    in a listed directory is left as it was, no file is created or
    modified outside the recycle bin (a file is as before or gone), and
    the stop flag and the processes are not touched. *)
Theorem deletion_spares_what_is_not_listed denv files_to_delete w :
  let out := delete_files denv files_to_delete w in
  (confirm_deletion denv <> Ok true \/ files_to_delete = [] ->
     files out.2 = files w) /\
  (confirm_deletion denv = Ok false \/ files_to_delete = [] ->
     out.1 = Ok None /\ exists msg, log out.2 = log w ++ [(INFO, msg)]) /\
  (forall q, (forall p, p ∈ files_to_delete -> at_or_inside p q = false) ->
     files out.2 !! q = files w !! q) /\
  (forall q, files out.2 !! q = files w !! q \/ files out.2 !! q = None) /\
  STOP_EVENT out.2 = STOP_EVENT w /\ spawned out.2 = spawned w /\
  terminated out.2 = terminated w.
Proof.
  cbv zeta.
  destruct (delete_files denv files_to_delete w) as [r wf] eqn:Hrun.
  cbn [fst snd]. revert Hrun. unfold delete_files.
  destruct files_to_delete as [|file rest].
  { unfold bind, logging, ret. intros [= <- <-]. simpl.
    split; [done|]. split; [eauto|]. repeat split; auto. }
  unfold bind at 1, ask.
  destruct (confirm_deletion denv) as [[]|e|]; cbn [negb];
    try (unfold bind, logging, ret; intros [= <- <-]; simpl; split; [done|];
         split; [intros [?|?]; by eauto|]; repeat split; auto).
  unfold bind.
  destruct (delete_each_spec denv (file :: rest) 0 w)
    as (k' & errs & w' & -> & Hlog & Herr & Hk & Hout & Hle & Hgone
          & Hs & _ & Hsp & Htm & _).
  unfold ret. intros [= <- <-].
  split; [by intros [?|?]|]. split; [by intros [?|?]|]. done.
Qed.

(** X17.  After the confirmation, with a non-empty list: every listed
    path is either counted in the summary or answered by one error
    record; and for each listed path whose move meets no error, nothing
    is left at that path or, if it is a directory, in it. *)
Theorem deletion_accounts_for_every_file denv files_to_delete w :
  confirm_deletion denv = Ok true ->
  files_to_delete <> [] ->
  let out := delete_files denv files_to_delete w in
  exists deleted_count errs,
    out.1 = Ok (Some deleted_count) /\
    log out.2 = log w ++ errs /\
    Forall (fun r => r.1 = ERROR) errs /\
    deleted_count + length errs = length files_to_delete /\
    (forall p q, p ∈ files_to_delete -> trash_fault denv p = None ->
       at_or_inside p q = true -> files out.2 !! q = None).
Proof.
  intros Hc Hne. cbv zeta.
  destruct (delete_files denv files_to_delete w) as [r wf] eqn:Hrun.
  cbn [fst snd]. revert Hrun. unfold delete_files.
  destruct files_to_delete as [|file rest]; [done|].
  unfold bind at 1, ask. rewrite Hc. cbn [negb]. unfold bind.
  destruct (delete_each_spec denv (file :: rest) 0 w)
    as (k' & errs & w' & -> & Hlog & Herr & Hk & _ & _ & Hgone & _).
  unfold ret. intros [= <- <-]. exists k', errs.
  split; [done|]. split; [done|]. split; [done|]. split; [lia|]. done.
Qed.

Lemma deletion_accounts_for_every_file_witness :
  let out := delete_files denv_confirm ["/v/dir.avi"; "/v/zz.mp4"]
               w_directory in
  files out.2 !! "/v/dir.avi/inner.txt" = None /\
  files out.2 !! "/v/a.mp4" = Some "A" /\
  exists deleted_count errs,
    out.1 = Ok (Some deleted_count) /\
    log out.2 = log w_directory ++ errs /\
    Forall (fun r => r.1 = ERROR) errs /\
    deleted_count + length errs = 2.
Proof.
  destruct (deletion_accounts_for_every_file denv_confirm
              ["/v/dir.avi"; "/v/zz.mp4"] w_directory eq_refl
              ltac:(discriminate))
    as (deleted_count & errs & H1 & H2 & H3 & H4 & H5).
  split.
  { apply (H5 "/v/dir.avi"); [by left|reflexivity|by vm_compute]. }
  split; [by vm_compute|].
  exists deleted_count, errs. split; [exact H1|]. split; [exact H2|].
  split; [exact H3|exact H4].
Defined.

End DeletionExtras.

Module ListenerFacts.
Import VChecker Interactive.

Lemma listen_set keys w :
  STOP_EVENT w = true -> listen keys w = (Ok tt, w).
Proof.
  intros Hs. destruct keys; simpl; unfold bind, is_set, ret; by rewrite Hs.
Qed.

Lemma listen_unset keys w :
  STOP_EVENT w = false ->
  listen keys w
  = match keys with
    | [] | Hang :: _ => (Hang, w)
    | Raise _ :: _ => (Ok tt, w)
    | Ok char :: rest =>
        if is_quit_key char then (Ok tt, set_STOP_EVENT true w)
        else listen rest w
    end.
Proof.
  intros Hs. destruct keys as [|[char|e|] rest]; simpl;
    unfold bind at 1, is_set at 1; rewrite Hs; try done.
  destruct (is_quit_key char); [|done].
  unfold bind, is_set. by rewrite Hs.
Qed.

End ListenerFacts.

Section ListenerExtras.
Import VChecker Interactive Terms ListenerFacts.

(** X18.  The key listener changes nothing but the stop flag, and never
    clears it; it does nothing when the flag is already set or when it
    is disabled.  Otherwise it sets the flag exactly when the first key
    that is not an ordinary character is a quit key ([q], [a] or
    Ctrl-C): an exception of the key reader ends the listener for good,
    so that a later quit key is not seen; and it waits for ever exactly
    when the keys run out, or the reader blocks, before that. *)
Theorem listener_sets_the_flag_on_a_quit_key enabled keys w :
  let out := input_listener enabled keys w in
  (out.2 = w \/ (STOP_EVENT w = false /\ out.2 = set_STOP_EVENT true w)) /\
  (STOP_EVENT w = true \/ enabled = false -> out = (Ok tt, w)) /\
  (STOP_EVENT w = false -> enabled = true ->
   (STOP_EVENT out.2 = true <->
    exists before char rest,
      keys = before ++ Ok char :: rest /\
      Forall ordinary_key before /\ is_quit_key char = true) /\
   (out.1 = Hang <->
    exists before rest,
      keys = before ++ rest /\ Forall ordinary_key before /\
      (rest = [] \/ exists rest', rest = Hang :: rest'))).
Proof.
  simpl. unfold input_listener. destruct enabled; simpl.
  2:{ unfold ret. simpl. split; [by left|]. split; [done|]. done. }
  destruct (STOP_EVENT w) eqn:Hs.
  { rewrite (listen_set keys w Hs).
    simpl. split; [by left|]. split; [done|]. done. }
  split; [|split; [by intros [?|?]|intros _ _]].
  - induction keys as [|k keys IH]; rewrite (listen_unset _ w Hs);
      [by left|].
    destruct k as [char| |]; try by left.
    destruct (is_quit_key char); [|done]. by right.
  - induction keys as [|k keys IH]; rewrite (listen_unset _ w Hs).
    { simpl. rewrite Hs. split; split; try done.
      - intros (before & char & rest & H & _). by destruct before.
      - intros _. exists [], []. split; [done|].
        split; [constructor|by left]. }
    destruct k as [char|e|].
    + destruct (is_quit_key char) eqn:Hq.
      * simpl. split; split; try done.
        -- intros _. exists [], char, keys. split; [done|].
           split; [constructor|done].
        -- intros (before & rest & H & Hb & Hr).
           destruct before as [|b before].
           ++ simpl in H. subst rest. destruct Hr as [?|[? ?]]; done.
           ++ simpl in H. injection H as <- _.
              apply Forall_cons in Hb as [(c & [= <-] & Hc) _]. congruence.
      * destruct IH as [IH1 IH2]. split.
        -- rewrite IH1. split.
           ++ intros (before & c & rest & -> & Hb & Hc).
              exists (Ok char :: before), c, rest. split; [done|].
              split; [|done]. constructor; [|done]. by exists char.
           ++ intros (before & c & rest & H & Hb & Hc).
              destruct before as [|b before].
              ** simpl in H. injection H as <- _. congruence.
              ** simpl in H. injection H as <- ->.
                 apply Forall_cons in Hb as [_ Hb].
                 by exists before, c, rest.
        -- rewrite IH2. split.
           ++ intros (before & rest & -> & Hb & Hr).
              exists (Ok char :: before), rest. split; [done|].
              split; [|done]. constructor; [|done]. by exists char.
           ++ intros (before & rest & H & Hb & Hr).
              destruct before as [|b before].
              ** simpl in H. subst rest. destruct Hr as [?|[? ?]]; done.
              ** simpl in H. injection H as <- ->.
                 apply Forall_cons in Hb as [_ Hb].
                 by exists before, rest.
    + simpl. rewrite Hs. split; split; try done.
      * intros (before & c & rest & H & Hb & Hc).
        destruct before as [|b before].
        -- simpl in H. done.
        -- simpl in H. injection H as <- _.
           apply Forall_cons in Hb as [(? & ? & _) _]. done.
      * intros (before & rest & H & Hb & Hr).
        destruct before as [|b before].
        -- simpl in H. subst rest. destruct Hr as [?|[? ?]]; done.
        -- simpl in H. injection H as <- _.
           apply Forall_cons in Hb as [(? & ? & _) _]. done.
    + simpl. rewrite Hs. split; split; try done.
      * intros (before & c & rest & H & Hb & Hc).
        destruct before as [|b before].
        -- simpl in H. done.
        -- simpl in H. injection H as <- _.
           apply Forall_cons in Hb as [(? & ? & _) _]. done.
      * intros _. exists [], (Hang :: keys). split; [done|].
        split; [constructor|]. right. eauto.
Qed.

End ListenerExtras.

Module StartupFacts.
Import VChecker PyLib Interactive Terms.


Lemma stray_processes_hidden procs proc :
  proc ∈ procs -> os_name proc = None ->
  stray_processes procs = Raise "'NoneType' object has no attribute 'lower'".
Proof.
  intros Hin Hnone. induction procs as [|p procs IH].
  { by apply elem_of_nil in Hin. }
  simpl. destruct (os_name p) as [nm|] eqn:Hp; [|done].
  apply elem_of_cons in Hin as [->|Hin]; [congruence|].
  by rewrite (IH Hin).
Qed.


End StartupFacts.

Section StartupExtras.
Import VChecker PyLib Interactive Terms StartupFacts Scenario Cases.



(** X20.  If one process of the system does not disclose its name, the
    check for stray processes raises an exception before it asks or
    kills anything, even when no verifier process is running. *)
Theorem hidden_process_name_aborts_the_check procs proc confirm w :
  proc ∈ procs ->
  os_name proc = None ->
  check_and_kill_stray_ffmpeg true procs confirm w
  = (Raise "'NoneType' object has no attribute 'lower'", w).
Proof.
  intros Hin Hnone. unfold check_and_kill_stray_ffmpeg. simpl.
  by rewrite (stray_processes_hidden procs proc Hin Hnone).
Qed.

Lemma hidden_process_name_aborts_the_check_witness :
  check_and_kill_stray_ffmpeg true
    [mkOsProcess 11 (Some "bash") None; hidden_process] true w_videos
  = (Raise "'NoneType' object has no attribute 'lower'", w_videos).
Proof.
  apply (hidden_process_name_aborts_the_check _ hidden_process).
  - right. left.
  - reflexivity.
Defined.

(** X21.  The dependency check answers [True] exactly when the three
    required packages can all be imported.  [pip] is run only on the
    answer [y] (in either case), on exactly the missing packages, and
    even a successful installation makes the check answer [False].
    When a package is missing and the prompt raises (the input is
    closed), the check raises and [pip] is not run. *)
Theorem dependencies_pass_only_when_all_importable denv :
  let out := check_and_install_dependencies denv in
  (out.1 = Ok true <->
   forall item, item ∈ REQUIRED_PACKAGES -> find_spec denv item.2 = true) /\
  (forall installed,
     out.2 = Some installed ->
     installed = missing_packages denv /\ installed <> [] /\
     (exists typed, response denv = Ok typed /\ lower typed = "y") /\
     out.1 <> Ok true) /\
  (forall e, missing_packages denv <> [] -> response denv = Raise e ->
     out = (Raise e, None)).
Proof.
  simpl. unfold check_and_install_dependencies.
  assert (missing_packages denv = [] <->
          forall item, item ∈ REQUIRED_PACKAGES ->
                       find_spec denv item.2 = true)
    as Hmiss.
  { unfold missing_packages. split.
    - intros Hf item Hin. apply fmap_nil_inv in Hf.
      destruct (find_spec denv item.2) eqn:Hfs; [done|].
      assert (item ∈ filter (fun item => find_spec denv item.2 = false)
                       REQUIRED_PACKAGES) as H
        by (by apply list_elem_of_filter).
      rewrite Hf in H. by apply elem_of_nil in H.
    - intros Hall.
      destruct (filter _ REQUIRED_PACKAGES) as [|item l] eqn:Hf; [done|].
      assert (item ∈ filter (fun item => find_spec denv item.2 = false)
                       REQUIRED_PACKAGES) as H by (rewrite Hf; left).
      apply list_elem_of_filter in H as [H Hin].
      rewrite (Hall item Hin) in H. done. }
  destruct (missing_packages denv) as [|pkg l] eqn:Hm.
  { simpl. split; [by split; [intros _; apply Hmiss|]|]. split; done. }
  assert (~ forall item, item ∈ REQUIRED_PACKAGES ->
                         find_spec denv item.2 = true) as Hnot.
  { intros Hall. by apply Hmiss in Hall. }
  destruct (response denv) as [typed|e0|] eqn:Hr; simpl.
  - destruct (String.eqb (lower typed) "y") eqn:Hy; simpl.
    + apply String.eqb_eq in Hy.
      destruct (pip denv) eqn:Hp; simpl;
        (split; [by split|]); (split; [|done]);
        intros ? [= <-]; repeat split; eauto; done.
    + split; [by split|]. split; done.
  - split; [by split|]. split; [done|]. by intros ? _ [= ->].
  - split; [by split|]. split; done.
Qed.

End StartupExtras.

(** * Properties of the main script *)

Module ScriptFacts.
Import Str PathLib VChecker PyLib Interactive Terms.
Import TempDir PoolFacts TempDirFacts PoolExtraFacts StrFacts ReportFacts.
Import SelectionFacts DeletionFacts.

Lemma same_processes_trans w1 w2 w3 :
  same_processes w1 w2 -> same_processes w2 w3 -> same_processes w1 w3.
Proof.
  intros (? & ? & ? & ? & ? & ?) (? & ? & ? & ? & ? & ?).
  repeat split; congruence.
Qed.

Lemma same_but_log_processes w w' : same_but_log w w' -> same_processes w w'.
Proof. intros (? & ? & ? & ? & ? & ? & ?). by repeat split. Qed.

Lemma start_input_listener_spec enabled w :
  exists w', start_input_listener enabled w = (Ok tt, w') /\ same_but_log w w'.
Proof.
  unfold start_input_listener. destruct enabled.
  - by exists w.
  - eexists. unfold logging. split; [done|]. done.
Qed.

(** Loading never fails, changes nothing but the log, and returns
    records of the report only. *)
Lemma load_report_safe io_fault report_file w :
  exists result w',
    load_report io_fault report_file w = (Ok result, w') /\
    same_but_log w w' /\
    forall entry, entry ∈ result ->
      exists content line,
        files w !! report_file = Some content /\
        line ∈ readlines content /\ parse_line line = Some entry.
Proof.
  destruct (files w !! report_file) as [content|] eqn:Hf.
  - destruct io_fault as [e|].
    + unfold load_report. rewrite Hf.
      unfold try_except, fault, bind, raise, logging, ret. simpl.
      eexists [], _. split; [done|]. split; [done|].
      intros entry Hin. by apply elem_of_nil in Hin.
    + rewrite (load_report_spec report_file content w Hf).
      eexists _, _. split; [done|]. split; [done|].
      intros entry Hin. apply list_elem_of_filter in Hin as [_ Hin].
      apply list_elem_of_omap in Hin as (line & Hline & Hparse).
      by exists content, line.
  - unfold load_report. rewrite Hf. unfold bind, logging, ret. simpl.
    eexists [], _. split; [done|]. split; [done|].
    intros entry Hin. by apply elem_of_nil in Hin.
Qed.

Lemma save_report_frame io_fault report_file corrupted_files w :
  exists w',
    save_report io_fault report_file corrupted_files w = (Ok tt, w') /\
    same_processes w w' /\
    forall q, q <> report_file -> files w' !! q = files w !! q.
Proof.
  unfold save_report, try_except, fault, bind, raise, logging, ret.
  destruct io_fault as [e|]; simpl; eexists; (split; [done|]);
    (split; [done|]); intros q Hq; simpl; [done|].
  by rewrite lookup_insert_ne.
Qed.

(** The second part of the script: once the stop flag is seen it
    touches nothing and returns; otherwise, whatever its outcome, a file
    it changes is the report it saves, or is at or in a reported path
    and gone. *)
Lemma report_and_delete_spec menv config corrupted_files w r w' :
  report_and_delete menv config corrupted_files w = (r, w') ->
  STOP_EVENT w' = (STOP_EVENT w || quit_before_report menv) /\
  ACTIVE_PROCESSES w' = ACTIVE_PROCESSES w /\
  spawned w' = spawned w /\ terminated w' = terminated w /\
  futures w' = futures w /\ progress w' = progress w /\
  (STOP_EVENT w' = true -> files w' = files w /\ log w' = log w) /\
  forall q, cfg_save_report_path config <> Some q ->
    files w' !! q = files w !! q \/
    (files w' !! q = None /\
     exists p, p ∈ corrupted_files.*1 /\ at_or_inside p q = true).
Proof.
  unfold report_and_delete.
  unfold bind at 1, listener at 1. unfold bind at 1, is_set at 1. simpl.
  destruct (STOP_EVENT w || quit_before_report menv) eqn:Hs.
  { unfold ret. intros [= <- <-]. simpl. repeat split; auto. }
  destruct corrupted_files as [|entry rest].
  { unfold ret. intros [= <- <-]. simpl. repeat split; auto. }
  set (cf := entry :: rest).
  set (w0 := set_STOP_EVENT false w).
  assert (exists w1,
            match cfg_save_report_path config with
            | Some report_file => save_report (save_fault menv) report_file cf
            | None => ret tt
            end w0 = (Ok tt, w1) /\
            same_processes w0 w1 /\
            forall q, cfg_save_report_path config <> Some q ->
                      files w1 !! q = files w0 !! q)
    as (w1 & Hsave & Hp1 & Hf1).
  { destruct (cfg_save_report_path config) as [rf|].
    - destruct (save_report_frame (save_fault menv) rf cf w0)
        as (w1 & H1 & H2 & H3).
      exists w1. split; [done|]. split; [done|]. intros q Hq. apply H3.
      congruence.
    - exists w0. by repeat split. }
  unfold bind at 1. rewrite Hsave. unfold bind at 1.
  destruct (select_safe (answer menv) cf w1) as (l & w2 & -> & Hsame2 & Hl).
  unfold bind at 1.
  destruct (delete_files (deletion menv) l w2) as [rd w3] eqn:Hdel.
  destruct (delete_files_frame _ _ _ _ _ Hdel) as [Hp3 Hf3].
  assert (w' = w3 -> 
          STOP_EVENT w' = false /\
          ACTIVE_PROCESSES w' = ACTIVE_PROCESSES w /\
          spawned w' = spawned w /\ terminated w' = terminated w /\
          futures w' = futures w /\ progress w' = progress w /\
          (STOP_EVENT w' = true -> files w' = files w /\ log w' = log w) /\
          forall q, cfg_save_report_path config <> Some q ->
            files w' !! q = files w !! q \/
            (files w' !! q = None /\
             exists p, p ∈ cf.*1 /\ at_or_inside p q = true)) as Hend.
  { intros ->.
    pose proof (same_processes_trans _ _ _ Hp1
                  (same_processes_trans _ _ _
                     (same_but_log_processes _ _ Hsame2) Hp3))
      as (H1 & H2 & H3 & H4 & H5 & H6).
    simpl in *. split; [done|]. split; [done|]. split; [done|].
    split; [done|]. split; [done|]. split; [done|].
    split; [by rewrite H1|].
    intros q Hq. destruct Hsame2 as (_ & _ & Hf2 & _).
    destruct (Hf3 q) as [Heq|[Hnone (p & Hin & Hp)]].
    - left. by rewrite Heq, Hf2, Hf1.
    - right. split; [done|]. exists p. split; [by apply Hl|done]. }
  destruct rd as [count|e|]; unfold ret; intros [= <- <-]; by apply Hend.
Qed.

(** The first part of the script when it scans a directory: whatever
    its outcome, it changes no file but staged copies, and it returns
    only paths of video files found by the scan. *)
Lemma corrupted_files_of_scan T menv config w r w' :
  cfg_load_report config = None ->
  corrupted_files_of T menv config w = (r, w') ->
  (forall q,
     ~ staged_copy (pool menv) (video_files_of menv)
         (default false (cfg_cache_local config)) q ->
     files w' !! q = files w !! q) /\
  (forall found p, r = Ok (Some found) -> p ∈ found.*1 ->
                   p ∈ video_files_of menv).
Proof.
  intros Hload. unfold corrupted_files_of, video_files_of. rewrite Hload.
  destruct (ffmpeg_installed menv); simpl.
  2:{ unfold ret. intros [= <- <-]. by repeat split. }
  destruct (cfg_directory config) as [directory|].
  2:{ unfold raise. intros [= <- <-]. by split. }
  destruct (cfg_workers config) as [workers|].
  2:{ unfold raise. intros [= <- <-]. by split. }
  destruct (filter _ (rglob menv)) as [|file rest] eqn:Hv.
  { unfold bind, logging, ret. intros [= <- <-]. by repeat split. }
  rewrite <- Hv. clear Hv.
  set (video_files := filter (fun p => is_video p = true) (rglob menv)) in *.
  set (use_cache := default false (cfg_cache_local config)).
  unfold bind at 1, logging at 1. unfold bind at 1.
  match goal with |- context [run_analysis_with_exit _ _ _ _ _ _ ?w0] =>
    set (w1 := w0) end.
  pose proof (fun q => run_analysis_files T (pool menv) video_files use_cache
                         workers w1 q) as Hframe.
  pose proof (run_analysis_paths T (pool menv) video_files use_cache
                workers w1) as Hpaths.
  destruct (run_analysis_with_exit_spec T (pool menv) (temp_dir_fault menv)
              video_files use_cache workers w1)
    as (_ & _ & _ & _ & _ & _ & _ & Hout & _ & Hres & _).
  assert (forall q, ~ staged_copy (pool menv) video_files use_cache q ->
            files (run_analysis_with_exit T (pool menv) (temp_dir_fault menv)
                     video_files use_cache workers w1).2 !! q
            = files w !! q) as Hfiles.
  { intros q Hq. rewrite Hout.
    - by rewrite Hframe.
    - intros Hin. by apply elem_of_staged_names in Hin. }
  destruct (run_analysis_with_exit _ _ _ _ _ _ w1) as [[result|e|] w2];
    cbn [fst snd] in *.
  - unfold ret. intros [= <- <-]. split; [exact Hfiles|].
    intros found p [= <-].
    destruct (run_analysis T (pool menv) video_files use_cache workers w1)
      as [rb wb]. cbn [fst snd] in *.
    destruct Hres as [<-|[e He]]; [|done]. by apply (Hpaths _ _ eq_refl).
  - intros [= <- <-]. by split.
  - intros [= <- <-]. by split.
Qed.

End ScriptFacts.

Section ScriptExtras.
Import Str PathLib VChecker PyLib Interactive Terms ScriptFacts Scenario Cases.

(** X22.  When it loads a report, the main script starts, terminates or
    registers no process, whatever its outcome; a file it changes is
    either the report it is asked to save, or is at a path named on a
    line of the loaded report (or in it, if that path is a directory),
    and that file is gone (to the recycle bin). *)
Theorem load_mode_never_runs_the_verifier T menv config report_file w :
  cfg_load_report config = Some report_file ->
  let out := main_script T menv (Some config) w in
  spawned out.2 = spawned w /\ terminated out.2 = terminated w /\
  ACTIVE_PROCESSES out.2 = ACTIVE_PROCESSES w /\
  futures out.2 = futures w /\
  forall q, cfg_save_report_path config <> Some q ->
    files out.2 !! q = files w !! q \/
    (files out.2 !! q = None /\
     exists content line p reason,
       files w !! report_file = Some content /\
       line ∈ readlines content /\ parse_line line = Some (p, reason) /\
       at_or_inside p q = true).
Proof.
  intros Hload. cbv zeta.
  destruct (main_script T menv (Some config) w) as [r wf] eqn:Hrun.
  revert Hrun. unfold main_script.
  assert (config_is_empty config = false) as ->.
  { destruct config as [[?|] ? ? ? ?]; done. }
  unfold bind at 1.
  destruct (start_input_listener_spec (INPUT_LISTENER_ENABLED menv) w)
    as (w0 & -> & Hs0).
  unfold bind at 1, corrupted_files_of. rewrite Hload. unfold bind at 1.
  destruct (load_report_safe (load_fault menv) report_file w0)
    as (result & w1 & -> & Hs1 & Hres).
  unfold ret at 1.
  destruct (report_and_delete menv config result w1) as [r2 w2] eqn:Hsecond.
  destruct (report_and_delete_spec _ _ _ _ _ _ Hsecond)
    as (Hstop & Hreg & Hsp & Htm & Hfu & Hpr & _ & Hfiles).
  intros [= <- <-].
  destruct Hs0 as (_ & Hreg0 & Hf0 & Hsp0 & Htm0 & Hfu0 & _).
  destruct Hs1 as (_ & Hreg1 & Hf1 & Hsp1 & Htm1 & Hfu1 & _).
  simpl. split; [congruence|]. split; [congruence|].
  split; [congruence|]. split; [congruence|].
  intros q Hq. destruct (Hfiles q Hq) as [Heq|[Hnone (p & Hin & Hp)]].
  - left. congruence.
  - right. split; [done|].
    apply list_elem_of_fmap in Hin as ([p' reason] & -> & Hin).
    destruct (Hres _ Hin) as (content & line & Hc & Hline & Hparse).
    exists content, line, p', reason. rewrite <- Hf0. done.
Qed.

Lemma load_mode_never_runs_the_verifier_witness :
  let out := main_script None menv_load (Some config_load) w_report in
  files out.2 !! "/v/a.mp4" = None /\
  files out.2 !! "/v/b.mp4" = Some "B" /\
  spawned out.2 = spawned w_report /\ terminated out.2 = terminated w_report /\
  ACTIVE_PROCESSES out.2 = ACTIVE_PROCESSES w_report /\
  futures out.2 = futures w_report.
Proof.
  split; [by vm_compute|]. split; [by vm_compute|].
  destruct (load_mode_never_runs_the_verifier None menv_load config_load
              "/r/report.txt" w_report eq_refl)
    as (H1 & H2 & H3 & H4 & _).
  split; [exact H1|]. split; [exact H2|]. split; [exact H3|exact H4].
Defined.

(** X23.  When it scans a directory, the main script changes, whatever
    its outcome, no file other than the report it is asked to save, the
    staged copies of the analysis, and what is at a path found by the
    scan whose suffix in lower case is a video extension (or in it, if
    that path is a directory); such a file is then gone (to the recycle
    bin). *)
Theorem scan_mode_changes_only_its_own_files T menv config w :
  cfg_load_report config = None ->
  let out := main_script T menv (Some config) w in
  forall q,
    cfg_save_report_path config <> Some q ->
    ~ staged_copy (pool menv) (video_files_of menv)
        (default false (cfg_cache_local config)) q ->
    files out.2 !! q = files w !! q \/
    (files out.2 !! q = None /\
     exists p, p ∈ rglob menv /\ is_video p = true /\
               at_or_inside p q = true).
Proof.
  intros Hload. cbv zeta. intros q Hsave Hstaged.
  destruct (main_script T menv (Some config) w) as [r' wf] eqn:Hrun.
  revert Hrun. unfold main_script.
  destruct (config_is_empty config); [intros [= <- <-]; by left|].
  unfold bind at 1.
  destruct (start_input_listener_spec (INPUT_LISTENER_ENABLED menv) w)
    as (w0 & -> & Hs0).
  destruct Hs0 as (_ & _ & Hf0 & _).
  unfold bind at 1.
  destruct (corrupted_files_of T menv config w0) as [r w1] eqn:Hfound.
  destruct (corrupted_files_of_scan T menv config w0 r w1 Hload Hfound)
    as (Hframe & Hpaths).
  specialize (Hframe q Hstaged).
  destruct r as [[found|]|e|]; try (intros [= <- <-]; left; simpl; congruence).
  destruct (report_and_delete menv config found w1) as [r2 w2] eqn:Hsecond.
  destruct (report_and_delete_spec _ _ _ _ _ _ Hsecond)
    as (_ & _ & _ & _ & _ & _ & _ & Hfiles).
  intros [= <- <-].
  simpl. destruct (Hfiles q Hsave) as [Heq|[Hnone (p & Hin & Hp)]].
  - left. congruence.
  - right. split; [done|]. exists p.
    specialize (Hpaths found p eq_refl Hin). unfold video_files_of in Hpaths.
    by apply list_elem_of_filter in Hpaths as [? ?].
Qed.

Lemma scan_mode_changes_only_its_own_files_witness :
  let out := main_script None menv_directory (Some (config_scan 2))
               w_directory in
  files out.2 !! "/v/dir.avi/inner.txt" = None /\
  exists p, p ∈ rglob menv_directory /\ is_video p = true /\
            at_or_inside p "/v/dir.avi/inner.txt" = true.
Proof.
  destruct (scan_mode_changes_only_its_own_files None menv_directory
              (config_scan 2) w_directory eq_refl "/v/dir.avi/inner.txt")
    as [Hsame|[Hnone Hp]].
  - discriminate.
  - intros [Hcache _]. discriminate Hcache.
  - by vm_compute in Hsame.
  - split; [exact Hnone|exact Hp].
Defined.

(** X24.  If the stop flag is set when the main script checks it, no
    report is saved and no file is deleted: apart from staged copies of
    the analysis the files are as they were, and entirely so when a
    report was loaded.  (No key is read after that check in the model,
    so the flag is then still set at the end, which is how the
    hypothesis reads.) *)
Theorem quit_leaves_report_and_videos_alone T menv config w :
  let out := main_script T menv (Some config) w in
  STOP_EVENT out.2 = true ->
  (is_Some (cfg_load_report config) -> files out.2 = files w) /\
  (forall q,
     ~ staged_copy (pool menv) (video_files_of menv)
         (default false (cfg_cache_local config)) q ->
     files out.2 !! q = files w !! q).
Proof.
  cbv zeta.
  destruct (main_script T menv (Some config) w) as [r' wf] eqn:Hrun.
  revert Hrun. unfold main_script.
  destruct (config_is_empty config) eqn:Hempty.
  { intros [= <- <-] _. split; done. }
  unfold bind at 1.
  destruct (start_input_listener_spec (INPUT_LISTENER_ENABLED menv) w)
    as (w0 & -> & Hs0).
  destruct Hs0 as (_ & _ & Hf0 & _).
  unfold bind at 1.
  destruct (corrupted_files_of T menv config w0) as [r w1] eqn:Hfound.
  assert ((is_Some (cfg_load_report config) -> files w1 = files w) /\
          (forall q,
             ~ staged_copy (pool menv) (video_files_of menv)
                 (default false (cfg_cache_local config)) q ->
             files w1 !! q = files w !! q)) as Hfirst.
  { destruct (cfg_load_report config) as [report_file|] eqn:Hload.
    - revert Hfound. unfold corrupted_files_of. rewrite Hload.
      unfold bind at 1.
      destruct (load_report_safe (load_fault menv) report_file w0)
        as (result & w1' & -> & (_ & _ & Hf1 & _) & _).
      unfold ret. intros [= <- <-]. split; [congruence|].
      intros q _. congruence.
    - destruct (corrupted_files_of_scan T menv config w0 r w1 Hload Hfound)
        as (Hframe & _).
      split; [by intros [? ?]|]. intros q Hq. rewrite <- Hf0. by apply Hframe. }
  destruct r as [[found|]|e|]; try (by intros [= <- <-] _).
  destruct (report_and_delete menv config found w1) as [r2 w2] eqn:Hsecond.
  destruct (report_and_delete_spec _ _ _ _ _ _ Hsecond)
    as (_ & _ & _ & _ & _ & _ & Hquit & _).
  intros [= <- <-] Hstop. simpl in *.
  destruct (Hquit Hstop) as [Hf2 _]. rewrite Hf2. exact Hfirst.
Qed.

Lemma quit_leaves_report_and_videos_alone_witness :
  let out := main_script None menv_quit (Some (config_scan 2)) w_videos in
  files out.2 !! "report.txt" = files w_videos !! "report.txt" /\
  files out.2 !! "/v/a.mp4" = files w_videos !! "/v/a.mp4".
Proof.
  destruct (quit_leaves_report_and_videos_alone None menv_quit (config_scan 2)
              w_videos ltac:(by vm_compute)) as [_ H].
  split; apply H; intros [Hcache _]; discriminate Hcache.
Defined.

(** X25.  A configuration returned by the setup dialogue is not empty
    and has the keys the main script looks up: either [load_report]
    alone, or [directory], [cache_local] and [workers], the number of
    workers being the one typed, whatever it is; the timeout is as it
    was unless a scan was chosen and the user set one. *)
Theorem configuration_from_setup_has_the_keys senv T0 config T :
  run_interactive_setup senv T0 = (Some config, T) ->
  config_is_empty config = false /\
  ((mode senv = "2" /\ is_Some (cfg_load_report config) /\
    cfg_directory config = None /\ cfg_cache_local config = None /\
    cfg_workers config = None /\ cfg_save_report_path config = None /\
    T = T0) \/
   (mode senv <> "2" /\ cfg_load_report config = None /\
    is_Some (cfg_directory config) /\
    cfg_cache_local config = Some (use_local_cache senv) /\
    cfg_workers config = Some (workers_wanted senv) /\
    (is_Some (cfg_save_report_path config) <-> want_report senv = true) /\
    T = if set_timeout senv then Some (timeout_seconds senv) else T0)).
Proof.
  unfold run_interactive_setup.
  destruct (String.eqb (mode senv) "2") eqn:Hmode.
  - apply String.eqb_eq in Hmode.
    destruct (is_empty (report_path senv)); [done|]. intros [= <- <-].
    split; [done|]. left. simpl. repeat split; eauto.
  - apply String.eqb_neq in Hmode.
    destruct (is_empty (target_dir senv)); [done|]. intros [= <- <-].
    split; [done|]. right. simpl. repeat split; eauto.
    + destruct (want_report senv); [done|]. by intros [? ?].
    + intros ->. eauto.
Qed.

Lemma configuration_from_setup_has_the_keys_witness :
  run_interactive_setup (senv_scan 0) None = (Some (config_scan 0), None) /\
  config_is_empty (config_scan 0) = false /\
  cfg_workers (config_scan 0) = Some 0%Z.
Proof.
  split; [by vm_compute|].
  destruct (configuration_from_setup_has_the_keys (senv_scan 0) None
              (config_scan 0) None ltac:(by vm_compute))
    as (H1 & [(Hmode & _)|(_ & _ & _ & _ & H2 & _)]).
  - discriminate Hmode.
  - split; [exact H1|exact H2].
Defined.

End ScriptExtras.
